(** * Release automation of Blinko: version resolution, propagation,
      build fan-out, image manifest merge and release publication.

    The development embeds the two GitHub Actions workflows of the
    repository,

    - [.github/workflows/app-release.yml]   (module [AppRelease]) and
    - the container-image workflow           (module [ImageRelease]),

    and states the properties of the release pipeline over them.

    Conventions of the embedding.

    - A [run:] script is a computation in the small shell monad [Sh.prog]:
      shell variables, the [GITHUB_ENV] and [GITHUB_OUTPUT] files and the
      exit status are explicit.
    - A [${{ ... }}] expression is a field of [GithubContext]; an absent
      value renders as the empty string, as the expression language does.
      The runner pastes the value into the text of the script; the
      definitions give the script for values that stand for themselves
      there ([Sh.plain]: no character the shell or jq reads as syntax, no
      line break), which is the precondition [plain_context] of the
      statements about what a script does for every trigger context.
    - Tools the workflows call (bash parameter expansion, jq, git, glob
      expansion, the Actions orchestrator, the release and registry
      actions) are modelled by the part of their documented behaviour
      the scripts rely on; every such definition says which command it
      stands for. *)

From Stdlib Require Import String Ascii List Bool Arith Lia.
From stdpp Require Import base option list strings gmap sorting relations.

Local Open Scope string_scope.
Local Open Scope list_scope.

#[local] Set Warnings "-register-all".

(** ** Shell primitives *)

Module Sh.

(** Outcome of a script: it runs to its end, or a command aborts it. *)
Inductive outcome (A : Type) : Type :=
| Done (a : A)
| Abort (code : nat).
Arguments Done {A} a.
Arguments Abort {A} code.

(** What a [run:] step can touch. *)
Record shell := {
  vars : gmap string string;          (* shell variables of the script *)
  github_env : gmap string string;    (* lines appended to $GITHUB_ENV *)
  github_output : gmap string string; (* lines appended to $GITHUB_OUTPUT *)
  stdout : list string
}.

Definition fresh (env : gmap string string) : shell :=
  {| vars := env; github_env := ∅; github_output := ∅; stdout := [] |}.

(** A program over a state [S]: state passing with an exit status. *)
Definition prog (S A : Type) : Type := S → outcome (A * S).

Definition ret {S A} (a : A) : prog S A := fun s => Done (a, s).

Definition bind {S A B} (m : prog S A) (k : A → prog S B) : prog S B :=
  fun s => match m s with
           | Done (a, s') => k a s'
           | Abort c => Abort c
           end.

(** A command that fails; under [bash -e] the script stops there. *)
Definition fail {S A} (code : nat) : prog S A := fun _ => Abort code.

(** [cmd && next]: [bash -e] does not stop on the failure of a command
    of an [&&] list other than its last one; the rest of the list is
    not run and the script goes on. *)
Definition and_list {S} (cmd : prog S unit) : prog S unit :=
  fun s => match cmd s with
           | Done x => Done x
           | Abort _ => Done (tt, s)
           end.

(** The final state of a program, [None] when it aborted. *)
Definition final {S A} (r : outcome (A * S)) : option S :=
  match r with
  | Done (_, s) => Some s
  | Abort _ => None
  end.

Abbreviation sh := (prog shell).

(** [NAME=value] *)
Definition assign (x v : string) : sh unit :=
  fun s => Done (tt, {| vars := <[x := v]> (vars s);
                       github_env := github_env s;
                       github_output := github_output s;
                       stdout := stdout s |}).

(** ["$NAME"]: an unset variable expands to the empty string. *)
Definition var (x : string) : sh string :=
  fun s => Done (default "" (vars s !! x), s).

(** [echo text] *)
Definition echo (line : string) : sh unit :=
  fun s => Done (tt, {| vars := vars s;
                       github_env := github_env s;
                       github_output := github_output s;
                       stdout := stdout s ++ [line] |}).

(** [echo "NAME=value" >> $GITHUB_ENV] *)
Definition export_env (x v : string) : sh unit :=
  fun s => Done (tt, {| vars := vars s;
                       github_env := <[x := v]> (github_env s);
                       github_output := github_output s;
                       stdout := stdout s |}).

(** [echo "name=value" >> $GITHUB_OUTPUT] *)
Definition set_output (x v : string) : sh unit :=
  fun s => Done (tt, {| vars := vars s;
                       github_env := github_env s;
                       github_output := <[x := v]> (github_output s);
                       stdout := stdout s |}).

(** [${NAME#v}]: remove the shortest prefix matching the pattern [v],
    that is one leading letter v when there is one. *)
Definition strip_v (s : string) : string :=
  match s with
  | String "v" rest => rest
  | _ => s
  end.

(** [${NAME#prefix}] for a literal prefix: the text after the prefix,
    when the value starts with it. *)
Fixpoint after_prefix (p s : string) : option string :=
  match p, s with
  | "", _ => Some s
  | String a p', String b s' =>
      if Ascii.eqb a b then after_prefix p' s' else None
  | String _ _, "" => None
  end.

Definition strip_prefix (p s : string) : string :=
  default s (after_prefix p s).

(** [${NAME//a/b}] for single characters. *)
Fixpoint replace_char (a b : ascii) (s : string) : string :=
  match s with
  | "" => ""
  | String c r =>
      String (if Ascii.eqb c a then b else c) (replace_char a b r)
  end.

(** [sed 's/pat/rep/g'] for a literal, non-empty pattern: scanning from
    the left, each occurrence is replaced and the scan resumes behind
    it; [skip] counts the characters of an occurrence still to pass. *)
Fixpoint sed_g (pat rep : string) (skip : nat) (s : string) : string :=
  match s with
  | "" => ""
  | String c r =>
      match skip with
      | S k => sed_g pat rep k r
      | O =>
          if String.prefix pat s
          then rep +:+ sed_g pat rep (String.length pat - 1) r
          else String c (sed_g pat rep 0 r)
      end
  end.

(** The expansion of the glob [*] in a directory: its entries that do
    not start with a dot, sorted; the pattern itself when there is
    none. *)
Definition hidden (f : string) : bool :=
  match f with
  | String "." _ => true
  | _ => false
  end.

Definition glob_star (dir : gset string) : list string :=
  match merge_sort String.le (filter (fun f => hidden f = false) (elements dir)) with
  | [] => ["*"]
  | fs => fs
  end.

(** Whether a character of a string satisfies [p]. *)
Definition has (p : ascii → bool) (s : string) : bool :=
  existsb p (list_ascii_of_string s).

(** The characters the shell or jq reads as syntax inside quotes, and
    the line breaks: the double quote, the dollar sign, the single
    quote, the backslash, the backquote, line feed and carriage return,
    by their codes. *)
Definition special (c : ascii) : bool :=
  existsb (Nat.eqb (nat_of_ascii c)) [34; 36; 39; 92; 96; 10; 13]%nat.

(** A value that stands for itself when the runner pastes it into a
    script between quotes, into the filter of jq, or when the script
    writes it on a line of [GITHUB_ENV] or [GITHUB_OUTPUT]. *)
Definition plain (s : string) : bool := negb (has special s).

(** Space and tab, at which the shell splits an unquoted expansion, and
    the characters [*], [?] and [[], which make it a pattern. *)
Definition blank (c : ascii) : bool :=
  existsb (Nat.eqb (nat_of_ascii c)) [32; 9]%nat.

Definition glob_char (c : ascii) : bool :=
  existsb (Nat.eqb (nat_of_ascii c)) [42; 63; 91]%nat.

Definition slash (c : ascii) : bool := Nat.eqb (nat_of_ascii c) 47.

(** [[ -z "$x" ]] *)
Definition is_empty (s : string) : bool := String.eqb s "".

(** [[[ "$a" == "$b" ]]] *)
Definition same (a b : string) : bool := String.eqb a b.

End Sh.

#[global] Instance prog_ret {S} : MRet (Sh.prog S) := @Sh.ret S.
#[global] Instance prog_bind {S} : MBind (Sh.prog S) := fun A B k m => Sh.bind m k.

(** ** The trigger context *)

(** The fields of the [github] context the two workflows read.  A field
    the triggering event does not carry is the empty string. *)
Record GithubContext := {
  event_name : string;                 (* github.event_name *)
  ref : string;                        (* github.ref *)
  ref_name : string;                   (* GITHUB_REF_NAME *)
  workflow : string;                   (* github.workflow *)
  inputs_tag : string;                 (* github.event.inputs.tag *)
  inputs_version : string;             (* github.event.inputs.version *)
  inputs_set_latest : string;          (* github.event.inputs.set_latest *)
  inputs_trigger_app_release : string; (* github.event.inputs.trigger_app_release *)
  payload_version : string;            (* github.event.client_payload.version *)
  payload_tag : string                 (* github.event.client_payload.tag *)
}.

(** The first non-empty string of a list, [d] when there is none. *)
Fixpoint first_nonempty (l : list string) (d : string) : string :=
  match l with
  | [] => d
  | x :: l' => if Sh.is_empty x then first_nonempty l' d else x
  end.

(** ** Manifests: tauri.conf.json and package.json *)

Module Json.

(** A JSON value.  A number, [true], [false] or [null] is kept as its
    literal text. *)
Inductive value : Type :=
| JStr (s : string)
| JLit (text : string)
| JArr (items : list value)
| JObj (members : list (string * value)).

Definition value_eq_dec : ∀ x y : value, {x = y} + {x ≠ y}.
Proof.
  fix IH 1. intros x y. decide equality.
  - apply string_dec.
  - apply string_dec.
  - apply (List.list_eq_dec IH).
  - apply List.list_eq_dec. intros p q. decide equality. apply string_dec.
Defined.

#[global] Instance value_eq : EqDecision value := value_eq_dec.

(** How the bytes of a file are laid out around its JSON value: the
    layout jq prints (two-space indentation, a space after each colon),
    or the layout an author gave the file. *)
Inductive layout : Type :=
| JqIndented
| Authored (colon_space : bool) (style : nat).

#[global] Instance layout_eq : EqDecision layout.
Proof. solve_decision. Defined.


(** A manifest file: a JSON object with a string member [version] at
    its top level, which is what both [app/src-tauri/tauri.conf.json]
    and [package.json] are. *)
Record manifest := {
  version : string;
  rest : list (string * value);
  shape : layout
}.

#[global] Instance manifest_eq : EqDecision manifest.
Proof. solve_decision. Defined.

(** [jq '.version = "v"' file > tmp && mv tmp file]: the member is
    replaced and the file is printed in jq's layout. *)
Definition jq_set_version (v : string) (m : manifest) : manifest :=
  {| version := v; rest := rest m; shape := JqIndented |}.

(** [jq -r '.version' file] *)
Definition jq_raw_version (m : manifest) : string := version m.




End Json.

(** ** git, as far as the version commit uses it *)

Module Git.

Record commit := {
  message : string;
  tree : gmap string Json.manifest
}.

#[global] Instance commit_eq : EqDecision commit.
Proof. solve_decision. Defined.

Record repo := {
  head : string;            (* the ref the clone was checked out at *)
  worktree : gmap string Json.manifest;
  index : gmap string Json.manifest;
  log : list commit;        (* the checked-out history, HEAD first *)
  origin : list commit      (* the history of the remote ref *)
}.

(** Whether a ref names a branch. *)
Definition is_branch (ref : string) : bool := String.prefix "refs/heads/" ref.

Definition tip (history : list commit) : gmap string Json.manifest :=
  match history with
  | c :: _ => tree c
  | [] => ∅
  end.

(** [actions/checkout] with [fetch-depth: 0], at [GITHUB_REF]: a fresh
    clone at the tip of the remote ref.  HEAD is on a local branch when
    the ref is a branch, and detached when it is a tag. *)
Definition checkout (ref : string) (remote : list commit) : repo :=
  {| head := ref; worktree := tip remote; index := tip remote;
     log := remote; origin := remote |}.

(** Rewrite of a tracked file in the working tree by [f]; the file
    must exist. *)
Definition edit (path : string) (f : Json.manifest → Json.manifest)
    : Sh.prog repo unit :=
  fun r => match worktree r !! path with
           | Some m => Sh.Done (tt, {| head := head r;
                                       worktree := <[path := f m]> (worktree r);
                                       index := index r; log := log r;
                                       origin := origin r |})
           | None => Sh.Abort 2
           end.

(** Read of a file of the working tree ([cat], [jq -r]). *)
Definition read (path : string) : Sh.prog repo Json.manifest :=
  fun r => match worktree r !! path with
           | Some m => Sh.Done (m, r)
           | None => Sh.Abort 2
           end.

(** [git add path] *)
Definition add (path : string) : Sh.prog repo unit :=
  fun r => match worktree r !! path with
           | Some m => Sh.Done (tt, {| head := head r;
                                       worktree := worktree r;
                                       index := <[path := m]> (index r);
                                       log := log r; origin := origin r |})
           | None => Sh.Abort 128
           end.

(** [git diff --staged --quiet]: succeeds exactly when the index holds
    what HEAD holds. *)
Definition diff_staged_quiet : Sh.prog repo bool :=
  fun r => Sh.Done (bool_decide (index r = tip (log r)), r).

(** [git commit -m message]: fails when nothing is staged; it works on
    a detached HEAD as on a branch. *)
Definition commit_m (msg : string) : Sh.prog repo unit :=
  fun r => if bool_decide (index r = tip (log r)) then Sh.Abort 1
           else Sh.Done (tt, {| head := head r;
                                worktree := worktree r; index := index r;
                                log := {| message := msg; tree := index r |} :: log r;
                                origin := origin r |}).

(** The remote ref takes what the clone has. *)
Definition pushed (r : repo) : repo :=
  {| head := head r; worktree := worktree r; index := index r;
     log := log r; origin := log r |}.

(** [git pull --rebase origin ref]: the remote ref has not moved since
    the checkout of the run, so there is nothing to rebase onto. *)
Definition pull_rebase (ref : string) : Sh.prog repo unit := Sh.ret tt.

(** [git push], without arguments: git refuses on a detached HEAD; on a
    branch the remote, whose branch has not moved since the checkout,
    takes the commits. *)
Definition push : Sh.prog repo unit :=
  fun r => if is_branch (head r) then Sh.Done (tt, pushed r)
           else Sh.Abort 128.

(** [git push origin HEAD:ref], for the ref of the checkout: a branch
    takes the commits made on top of it; a ref that is no branch, such
    as the tag of a release, is not moved without force, so the push is
    rejected unless HEAD still is what the ref holds. *)
Definition push_head (ref : string) : Sh.prog repo unit :=
  fun r => if is_branch ref || bool_decide (log r = origin r)
           then Sh.Done (tt, pushed r)
           else Sh.Abort 1.

End Git.

(** ** The Actions orchestrator *)

Module Actions.

(** [a == b] on strings in a [${{ }}] expression, which ignores case. *)
Definition lower (c : ascii) : ascii :=
  let n := nat_of_ascii c in
  if (65 <=? n)%nat && (n <=? 90)%nat then ascii_of_nat (n + 32) else c.

Fixpoint lowercase (s : string) : string :=
  match s with
  | "" => ""
  | String c r => String (lower c) (lowercase r)
  end.

Definition expr_eq (a b : string) : bool :=
  String.eqb (lowercase a) (lowercase b).

Inductive conclusion : Type := Success | Failure | Cancelled | Skipped.

#[global] Instance conclusion_eq : EqDecision conclusion.
Proof. solve_decision. Defined.

(** A job with [needs:] and no [if:] of its own starts only when every
    job it needs has succeeded; otherwise it is skipped. *)
Definition starts (needs : list conclusion) : bool :=
  forallb (fun c => bool_decide (c = Success)) needs.

Definition after (needs : list conclusion) (own : conclusion) : conclusion :=
  if starts needs then own else Skipped.

(** *** Matrix strategies *)

Record strategy := {
  fail_fast : option bool;            (* strategy.fail-fast, when written *)
  include : list (string * string)    (* strategy.matrix.include *)
}.

(** [fail-fast] is true when the strategy does not set it. *)
Definition cancels_siblings (s : strategy) : bool := default true (fail_fast s).

Inductive leg_state : Type := Queued | Running | Succeeded | Failed | Canceled.

#[global] Instance leg_state_eq : EqDecision leg_state.
Proof. solve_decision. Defined.

Inductive leg_event : Type :=
| Start (i : nat)
| Finish (i : nat) (ok : bool).

(** What fail-fast does to a leg that has not finished. *)
Definition cancel (st : leg_state) : leg_state :=
  match st with
  | Queued | Running => Canceled
  | _ => st
  end.

Definition matrix_step (ff : bool) (legs : list leg_state) (e : leg_event)
    : option (list leg_state) :=
  match e with
  | Start i =>
      match legs !! i with
      | Some Queued => Some (<[i := Running]> legs)
      | _ => None
      end
  | Finish i true =>
      match legs !! i with
      | Some Running => Some (<[i := Succeeded]> legs)
      | _ => None
      end
  | Finish i false =>
      match legs !! i with
      | Some Running =>
          Some (<[i := Failed]> (if ff then cancel <$> legs else legs))
      | _ => None
      end
  end.

Fixpoint matrix_run (ff : bool) (legs : list leg_state) (es : list leg_event)
    : option (list leg_state) :=
  match es with
  | [] => Some legs
  | e :: es' =>
      match matrix_step ff legs e with
      | Some legs' => matrix_run ff legs' es'
      | None => None
      end
  end.

Definition queued (s : strategy) : list leg_state :=
  replicate (length (include s)) Queued.

(** The result of a matrix job, as [needs.<job>.result] shows it. *)
Definition matrix_conclusion (legs : list leg_state) : conclusion :=
  if forallb (fun st => bool_decide (st = Succeeded)) legs then Success
  else if existsb (fun st => bool_decide (st = Failed)) legs then Failure
  else Cancelled.

(** *** Concurrency groups *)

Record concurrency := {
  group : GithubContext → string;
  cancel_in_progress : bool
}.

Inductive run_state : Type := Active | Pending | Superseded | Completed.

#[global] Instance run_state_eq : EqDecision run_state.
Proof. solve_decision. Defined.

Record run := {
  trigger : GithubContext;
  state : run_state
}.

Inductive sched_event : Type :=
| Invoke (ctx : GithubContext)
| Complete (i : nat).

Definition in_group (c : concurrency) (key : string) (r : run) : bool :=
  String.eqb (group c (trigger r)) key.

Definition is_active (r : run) : bool := bool_decide (state r = Active).
Definition is_pending (r : run) : bool := bool_decide (state r = Pending).

Definition set_state (st : run_state) (r : run) : run :=
  {| trigger := trigger r; state := st |}.

(** Cancel the runs of a group that satisfy [which]. *)
Definition supersede (c : concurrency) (key : string) (which : run → bool)
    (runs : list run) : list run :=
  (fun r => if in_group c key r && which r then set_state Superseded r else r)
    <$> runs.

(** Start the pending run of a group, if it has one. *)
Fixpoint promote (c : concurrency) (key : string) (runs : list run) : list run :=
  match runs with
  | [] => []
  | r :: rs =>
      if in_group c key r && is_pending r then set_state Active r :: rs
      else r :: promote c key rs
  end.

(** One event of the scheduler for the runs of one workflow.  With a
    concurrency group, a new run cancels the running and pending runs
    of its group when [cancel-in-progress] is set, and otherwise waits
    behind the running one, replacing the pending one.  Without a
    group a new run just starts. *)
Definition sched_step (conc : option concurrency) (runs : list run)
    (e : sched_event) : list run :=
  match e with
  | Invoke ctx =>
      match conc with
      | None => runs ++ [{| trigger := ctx; state := Active |}]
      | Some c =>
          let key := group c ctx in
          if cancel_in_progress c then
            supersede c key (fun r => is_active r || is_pending r) runs
              ++ [{| trigger := ctx; state := Active |}]
          else if existsb (fun r => in_group c key r && is_active r) runs then
            supersede c key is_pending runs
              ++ [{| trigger := ctx; state := Pending |}]
          else runs ++ [{| trigger := ctx; state := Active |}]
      end
  | Complete i =>
      match runs !! i with
      | Some r =>
          if is_active r then
            let runs' := <[i := set_state Completed r]> runs in
            match conc with
            | Some c => promote c (group c (trigger r)) runs'
            | None => runs'
            end
          else runs
      | None => runs
      end
  end.

Definition sched_run (conc : option concurrency) (es : list sched_event)
    : list run :=
  foldl (sched_step conc) [] es.

(** The runs of one target that are executing at the same time. *)
Definition counted (target : GithubContext → string) (key : string)
    (r : run) : bool :=
  is_active r && String.eqb (target (trigger r)) key.

Definition executing (target : GithubContext → string) (key : string)
    (runs : list run) : nat :=
  length (List.filter (counted target key) runs).

(** *** The steps of a job *)

Inductive step_outcome : Type := StepSuccess | StepFailure | StepSkipped.

#[global] Instance step_outcome_eq : EqDecision step_outcome.
Proof. solve_decision. Defined.

Record job_state := {
  env : gmap string string;             (* the [env] context *)
  failed : bool;                        (* [success()] is false *)
  outcomes : gmap string step_outcome;  (* [steps.<id>.outcome] *)
  output : list string                  (* the log of the job *)
}.

Definition job_start : job_state :=
  {| env := ∅; failed := false; outcomes := ∅; output := [] |}.

(** A step starts when no step before it has failed the job and its own
    [if:] holds: a condition that calls no status function has
    [success()] implied. *)
Definition step_starts (guard : job_state → bool) (j : job_state) : bool :=
  negb (failed j) && guard j.

Definition skip_step (id : string) (j : job_state) : job_state :=
  {| env := env j; failed := failed j;
     outcomes := <[id := StepSkipped]> (outcomes j); output := output j |}.

(** The end of a step: its outcome is recorded, and a failure counts
    against the job unless the step has [continue-on-error: true]. *)
Definition end_step (id : string) (continue_on_error : bool) (o : step_outcome)
    (lines : list string) (exported : gmap string string) (j : job_state)
    : job_state :=
  {| env := exported ∪ env j;
     failed := failed j
               || (bool_decide (o = StepFailure) && negb continue_on_error);
     outcomes := <[id := o]> (outcomes j);
     output := output j ++ lines |}.

(** A [run:] step.  The script is made from the [env] context of the
    moment the step starts; what it writes to [GITHUB_ENV] is in that
    context for the steps that follow. *)
Definition run_step (id : string) (continue_on_error : bool)
    (guard : job_state → bool) (script : gmap string string → Sh.sh unit)
    (j : job_state) : job_state :=
  if step_starts guard j then
    match script (env j) (Sh.fresh (env j)) with
    | Sh.Done (_, s) =>
        end_step id continue_on_error StepSuccess (Sh.stdout s) (Sh.github_env s) j
    | Sh.Abort _ => end_step id continue_on_error StepFailure [] ∅ j
    end
  else skip_step id j.

(** A [uses:] step whose action ends with the outcome [o]. *)
Definition uses_step (id : string) (continue_on_error : bool)
    (guard : job_state → bool) (o : step_outcome) (j : job_state) : job_state :=
  if step_starts guard j then end_step id continue_on_error o [] ∅ j
  else skip_step id j.

Definition job_conclusion (j : job_state) : conclusion :=
  if failed j then Failure else Success.

End Actions.

(** ** The release hosting service *)

Module Releases.

Record release := {
  name : string;
  body : string;
  draft : bool;
  prerelease : bool;
  assets : gmap string string   (* file name to content *)
}.

(** [tauri-apps/tauri-action]: the release of [tagName] is looked up
    and created from the inputs when there is none; the bundles are
    uploaded to it, an asset of the same name being replaced. *)
Definition tauri_action (tagName releaseName releaseBody : string)
    (releaseDraft prerel : bool) (bundles : gmap string string)
    (st : gmap string release) : gmap string release :=
  let r := default {| name := releaseName; body := releaseBody;
                      draft := releaseDraft; prerelease := prerel;
                      assets := ∅ |} (st !! tagName) in
  <[tagName := {| name := name r; body := body r; draft := draft r;
                  prerelease := prerelease r;
                  assets := bundles ∪ assets r |}]> st.

(** [softprops/action-gh-release@v1] without a [name] input: an
    existing release of [tag_name] keeps its name, takes the flags of
    the inputs and takes the body of the inputs unless that is empty; a
    new one is named after the tag.  The files are uploaded, an asset of
    the same name being replaced. *)
Definition action_gh_release (tag_name body_in : string)
    (draft_in prerel : bool) (files : gmap string string)
    (st : gmap string release) : gmap string release :=
  match st !! tag_name with
  | Some r =>
      <[tag_name := {| name := name r;
                       body := if Sh.is_empty body_in then body r else body_in;
                       draft := draft_in;
                       prerelease := prerel;
                       assets := files ∪ assets r |}]> st
  | None =>
      <[tag_name := {| name := tag_name; body := body_in; draft := draft_in;
                       prerelease := prerel; assets := files |}]> st
  end.

End Releases.

(** ** Container registries *)

Module Registry.

Definition is_hex (c : ascii) : bool :=
  match c with
  | "0" | "1" | "2" | "3" | "4" | "5" | "6" | "7" | "8" | "9"
  | "a" | "b" | "c" | "d" | "e" | "f" => true
  | _ => false
  end%char.

(** The hexadecimal part of a sha256 digest. *)
Definition valid_digest (d : string) : bool :=
  Nat.eqb (String.length d) 64 && forallb is_hex (list_ascii_of_string d).

(** The text behind the first [@] of an image reference. *)
Fixpoint after_at (s : string) : option string :=
  match s with
  | "" => None
  | String c r => if Ascii.eqb c "@" then Some r else after_at r
  end.

(** A source of a manifest list is an image reference by digest,
    [name@sha256:<64 hex digits>]. *)
Definition by_digest (src : string) : bool :=
  match after_at src ≫= Sh.after_prefix "sha256:" with
  | Some d => valid_digest d
  | None => false
  end.

(** [docker buildx imagetools create -t tag ... source ...]: a manifest
    list over the sources is pushed under every tag; the command fails
    on a source that is not a reference by digest.  The registries map
    a tag to the sources of the manifest list pushed under it, and take
    every push. *)
Definition imagetools_create (tags sources : list string)
    : Sh.prog (gmap string (list string)) unit :=
  fun reg =>
    if forallb by_digest sources
    then Sh.Done (tt, foldr (fun t => <[t := sources]>) reg tags)
    else Sh.Abort 1.

(** [docker/metadata-action] with [tags: type=raw,value=v]: for each
    image name the version tag, followed by [latest] when the flavor
    says so. *)
Definition metadata_tags (images : list string) (v : string) (latest : bool)
    : list string :=
  images ≫= fun img =>
    (img +:+ ":" +:+ v) :: (if latest then [img +:+ ":latest"] else []).

End Registry.

(** ** app-release.yml *)

Module AppRelease.

(** Job [set-version], step [set_version] (lines 30-57). *)
Definition set_version (ctx : GithubContext) : Sh.sh unit :=
  Sh.echo ("Event name: " +:+ event_name ctx) ;;
  (if Sh.same (event_name ctx) "workflow_dispatch" then
     Sh.assign "VERSION" (inputs_tag ctx)
   else if Sh.same (event_name ctx) "repository_dispatch" then
     if negb (Sh.same (payload_version ctx) "") then
       Sh.assign "VERSION" (payload_version ctx)
     else
       Sh.assign "VERSION" (payload_tag ctx)
   else
     Sh.assign "TAG" (ref_name ctx) ;;
     tag ← Sh.var "TAG";
     Sh.assign "VERSION" (Sh.strip_v tag)) ;;
  v ← Sh.var "VERSION";
  (if Sh.is_empty v then
     Sh.echo "WARNING: Empty version, using default 1.0.0" ;;
     Sh.assign "VERSION" "1.0.0"
   else Sh.ret tt) ;;
  v ← Sh.var "VERSION";
  Sh.export_env "VERSION" v ;;
  Sh.set_output "version" v ;;
  Sh.echo ("Set version: " +:+ v).

(** [outputs: version: ${{ steps.set_version.outputs.version }}]: the value
    downstream jobs read as [needs.set-version.outputs.version].  [None]
    when the step aborted. *)
Definition set_version_output (ctx : GithubContext) : option string :=
  match set_version ctx (Sh.fresh ∅) with
  | Sh.Done (_, s) => Some (default "" (Sh.github_output s !! "version"))
  | Sh.Abort _ => None
  end.

(** The values the runner pastes into the script of [set_version]
    (lines 32-41), and the name of the ref, which the script reads from
    the environment and which, as the version of a tag push, is pasted
    into the scripts of the jobs that follow. *)
Definition pasted (ctx : GithubContext) : list string :=
  [event_name ctx; inputs_tag ctx; payload_version ctx; payload_tag ctx;
   ref_name ctx].

Definition plain_context (ctx : GithubContext) : bool :=
  forallb Sh.plain (pasted ctx).

(** *** Job [update-version] *)

Definition tauri_conf : string := "app/src-tauri/tauri.conf.json".

(** Step [Update Tauri Config Version] (lines 71-77); [v] is
    [needs.set-version.outputs.version].  The final [cat] fails when
    the file is not there. *)
Definition update_tauri_config (v : string) : Sh.prog Git.repo unit :=
  Sh.and_list (Git.edit tauri_conf (Json.jq_set_version v)) ;;
  _ ← Git.read tauri_conf;
  mret tt.

(** Step [Commit and Push Updated Version] (lines 79-90). *)
Definition commit_and_push (v : string) : Sh.prog Git.repo unit :=
  Git.add tauri_conf ;;
  unchanged ← Git.diff_staged_quiet;
  if (unchanged : bool) then
    mret tt                                  (* "No changes to commit" *)
  else
    Git.commit_m ("[ci skip] Update version to " +:+ v) ;;
    Git.push.

(** The job: checkout of the ref of the run, the two steps, then step
    [Upload tauri.conf.json as artifact] (lines 92-96).  It returns the
    remote history and the artifact store it leaves. *)
Definition update_version (ref v : string) (remote : list Git.commit)
    (store : gmap string Json.manifest)
    : Sh.outcome (list Git.commit * gmap string Json.manifest) :=
  match (update_tauri_config v ;; commit_and_push v) (Git.checkout ref remote) with
  | Sh.Done (_, r) =>
      match Git.worktree r !! tauri_conf with
      | Some m => Sh.Done (Git.origin r, <["tauri-config" := m]> store)
      | None => Sh.Abort 1
      end
  | Sh.Abort c => Sh.Abort c
  end.

(** *** Job [publish-desktop] *)

Definition desktop_strategy : Actions.strategy :=
  {| Actions.fail_fast := Some false;
     Actions.include :=
       [("macos-latest", "--target aarch64-apple-darwin");
        ("macos-latest", "--target x86_64-apple-darwin");
        ("ubuntu-22.04", "");
        ("windows-latest", "")] |}.

Definition is_newline (c : ascii) : bool := Ascii.eqb c "010".
Definition is_hyphen (c : ascii) : bool := Ascii.eqb c "-".

(** The regular expression [.*$] tried at the start of [s]: [.] is any
    character but a line feed and [$] is the end of the text or the
    place before its final line feed.  The result is what the match
    leaves behind it. *)
Fixpoint to_line_end (s : string) : option string :=
  match s with
  | "" => Some ""
  | String c r =>
      if is_newline c then (if Sh.is_empty r then Some s else None)
      else to_line_end r
  end.

(** [.+$] at the start of [s]. *)
Definition suffix_to_line_end (s : string) : option string :=
  match s with
  | "" => None
  | String c r => if is_newline c then None else to_line_end r
  end.

(** [$currentVersion -replace '-(.+)$', ''], defined when
    [$currentVersion -match '-(.+)$'] holds: the leftmost match is cut
    out. *)
Fixpoint strip_prerelease (s : string) : option string :=
  match s with
  | "" => None
  | String c r =>
      if is_hyphen c then
        match suffix_to_line_end r with
        | Some kept => Some kept
        | None => String c <$> strip_prerelease r
        end
      else String c <$> strip_prerelease r
  end.

(** The version the Windows leg builds with. *)
Definition windows_version (v : string) : string :=
  default v (strip_prerelease v).



Definition members (x : Json.value) : list (string * Json.value) :=
  match x with
  | Json.JObj ms => ms
  | _ => []
  end.









(** *** Publication *)

Definition placeholder : string :=
  "Under construction, full changelog will be updated after build completion...".

(** Step [Build and Publish Desktop App] (lines 190-205); [bundles] are
    the installers the packager produced. *)
Definition publish_desktop (v : string) (bundles : gmap string string)
    : gmap string Releases.release → gmap string Releases.release :=
  Releases.tauri_action v ("Blinko " +:+ v) placeholder false false bundles.

(** Step [Rename Android App File] (lines 308-317). *)
Definition apk_name (v : string) : string := "Blinko_" +:+ v +:+ "_universal.apk".

(** Step [Publish Android App] (lines 319-328). *)
Definition publish_android (v : string) (apk : string)
    : gmap string Releases.release → gmap string Releases.release :=
  Releases.action_gh_release v placeholder false false {[apk_name v := apk]}.

(** Step [Update GitHub Release] of job [update-release] (lines 359-366). *)
Definition update_release (v changelog : string)
    : gmap string Releases.release → gmap string Releases.release :=
  Releases.action_gh_release v changelog false false ∅.

(** *** The job graph *)

Inductive job : Type :=
| SetVersion | UpdateVersion | PublishDesktop | PublishAndroid
| GenerateChangelog | UpdateRelease.

#[global] Instance job_eq : EqDecision job.
Proof. solve_decision. Defined.

Record results := {
  set_version_result : Actions.conclusion;
  update_version_result : Actions.conclusion;
  publish_desktop_result : Actions.conclusion;
  publish_android_result : Actions.conclusion;
  generate_changelog_result : Actions.conclusion;
  update_release_result : Actions.conclusion
}.

(** The conclusions of a run, along the [needs:] edges; [own j] is how
    job [j] ends when it is started and [legs] is the final state of
    the desktop matrix. *)
Definition conclude (own : job → Actions.conclusion)
    (legs : list Actions.leg_state) : results :=
  let sv := own SetVersion in
  let uv := Actions.after [sv] (own UpdateVersion) in
  let pd := Actions.after [sv; uv] (Actions.matrix_conclusion legs) in
  let pa := Actions.after [sv; uv] (own PublishAndroid) in
  let gc := Actions.after [sv; pd; pa] (own GenerateChangelog) in
  let ur := Actions.after [sv; gc] (own UpdateRelease) in
  {| set_version_result := sv; update_version_result := uv;
     publish_desktop_result := pd; publish_android_result := pa;
     generate_changelog_result := gc; update_release_result := ur |}.

(** [${{ needs.set-version.outputs.version }}] *)
Definition needs_version (outs : gmap (string * string) string) : string :=
  default "" (outs !! ("set-version", "version")).

(** The job outputs a run publishes. *)
Definition run_outputs (ctx : GithubContext) : gmap (string * string) string :=
  match set_version_output ctx with
  | Some v => {[("set-version", "version") := v]}
  | None => ∅
  end.

(** The release version a job works with, from the trigger context and
    the outputs of the jobs it needs.  [generate-changelog] uses none. *)
Definition version_seen (j : job) (ctx : GithubContext)
    (outs : gmap (string * string) string) : option string :=
  match j with
  | SetVersion => set_version_output ctx
  | GenerateChangelog => None
  | UpdateVersion | PublishDesktop | PublishAndroid | UpdateRelease =>
      Some (needs_version outs)
  end.

(** The workflow has no [concurrency:] key. *)
Definition concurrency : option Actions.concurrency := None.

End AppRelease.

(** ** The container-image workflow *)

Module ImageRelease.

(** The [if ... fi] block that sets [VERSION], which step [Get Version]
    of job [update-version] (lines 49-53), step [Prepare] of job [build]
    (lines 96-100) and step [Extract version] of job [merge]
    (lines 188-192) have word for word. *)
Definition get_version (ctx : GithubContext) : Sh.sh unit :=
  if Sh.same (event_name ctx) "workflow_dispatch"
     && negb (Sh.same (inputs_version ctx) "") then
    Sh.export_env "VERSION" (inputs_version ctx)
  else
    Sh.export_env "VERSION" (Sh.strip_v (ref_name ctx)).

(** The values the runner pastes into that block, and the name of the
    ref, which the block reads from the environment and which, as the
    version of a release event, is pasted into the scripts of the steps
    that follow. *)
Definition pasted (ctx : GithubContext) : list string :=
  [event_name ctx; inputs_version ctx; ref_name ctx].

Definition plain_context (ctx : GithubContext) : bool :=
  forallb Sh.plain (pasted ctx).

(** [${{ env.VERSION }}] in the steps that follow the script. *)
Definition env_version (script : Sh.sh unit) : option string :=
  match script (Sh.fresh ∅) with
  | Sh.Done (_, s) => Some (default "" (Sh.github_env s !! "VERSION"))
  | Sh.Abort _ => None
  end.

(** Step [Get Version] of job [trigger-app-release] (lines 247-254). *)
Definition trigger_get_version (ctx : GithubContext) : Sh.sh unit :=
  if negb (Sh.same (inputs_version ctx) "") then
    Sh.export_env "VERSION" (inputs_version ctx)
  else
    Sh.export_env "VERSION" (Sh.strip_v (ref_name ctx)).

(** [if:] of job [trigger-app-release] (line 242). *)
Definition triggers_app_release (ctx : GithubContext) : bool :=
  Actions.expr_eq (event_name ctx) "workflow_dispatch"
  && Actions.expr_eq (inputs_trigger_app_release ctx) "true".

(** *** Job [update-version] *)

(** Step [Update package.json Version] (lines 57-75); [ref] is
    [GITHUB_REF] and [v] is [env.VERSION]. *)
Definition update_package_json (ref v : string) : Sh.prog Git.repo unit :=
  m ← Git.read "package.json";
  let current_version := Json.jq_raw_version m in
  if negb (Sh.same current_version v) then
    Git.edit "package.json" (Json.jq_set_version v) ;;
    Git.add "package.json" ;;
    Git.commit_m ("chore: Update version to " +:+ v) ;;
    Git.pull_rebase ref ;;
    Git.push_head ref
  else
    mret tt.      (* "already set in package.json, skipping update" *)

(** The job, from its checkout on: the remote history it leaves. *)
Definition update_version (ctx : GithubContext) (remote : list Git.commit)
    : Sh.outcome (list Git.commit) :=
  match env_version (get_version ctx) with
  | Some v =>
      match update_package_json (ref ctx) v (Git.checkout (ref ctx) remote) with
      | Sh.Done (_, r) => Sh.Done (Git.origin r)
      | Sh.Abort c => Sh.Abort c
      end
  | None => Sh.Abort 1
  end.

(** *** Job [build] *)

Definition build_strategy : Actions.strategy :=
  {| Actions.fail_fast := None;
     Actions.include :=
       [("linux/amd64", "ubuntu-latest");
        ("linux/arm64", "ubuntu-24.04-arm")] |}.

Definition platforms : list string := (Actions.include build_strategy).*1.

(** [PLATFORM_PAIR] of step [Prepare] (line 95). *)
Definition platform_pair (platform : string) : string :=
  Sh.replace_char "/" "-" platform.

(** Step [Prepare] of a leg of [build] (lines 92-101); [date] is what
    the clock command prints. *)
Definition prepare (platform : string) (ctx : GithubContext) (date : string)
    : Sh.sh unit :=
  Sh.assign "platform" platform ;;
  p ← Sh.var "platform";
  Sh.export_env "PLATFORM_PAIR" (Sh.replace_char "/" "-" p) ;;
  get_version ctx ;;
  Sh.export_env "BUILD_DATE" date.

(** Step [Export digest] (lines 151-156): the files of [/tmp/digests].
    With an empty name [touch] is given the directory itself and makes
    no file. *)
Definition export_digest (digest : string) : gset string :=
  let name := Sh.strip_prefix "sha256:" digest in
  if Sh.is_empty name then ∅ else {[name]}.

(** Step [Upload artifact] (lines 158-164), [if-no-files-found: error]. *)
Definition upload_digest (platform : string) (files : gset string)
    : Sh.prog (gmap string (gset string)) unit :=
  fun store =>
    if bool_decide (files = ∅) then Sh.Abort 1
    else Sh.Done (tt, <["digest-" +:+ platform_pair platform := files]> store).

(** A leg of the matrix; [built] is [steps.build.outputs.digest], or
    [None] when the leg did not get through its build. *)
Definition build_leg (platform : string) (built : option string)
    : Sh.prog (gmap string (gset string)) unit :=
  match built with
  | Some digest => upload_digest platform (export_digest digest)
  | None => Sh.fail 1
  end.

(** The legs of a run, over one artifact store: the store they leave and
    the conclusion of each. *)
Fixpoint build_legs (legs : list (string * option string))
    (store : gmap string (gset string))
    : gmap string (gset string) * list Actions.leg_state :=
  match legs with
  | [] => (store, [])
  | (platform, built) :: rest =>
      match build_leg platform built store with
      | Sh.Done (_, store') =>
          let '(final, states) := build_legs rest store' in
          (final, Actions.Succeeded :: states)
      | Sh.Abort _ =>
          let '(final, states) := build_legs rest store in
          (final, Actions.Failed :: states)
      end
  end.

(** *** Job [merge] *)

(** Step [Download digests] (lines 179-184): the files of every
    artifact named [digest-*], merged into one directory. *)
Definition download_digests (store : gmap string (gset string)) : gset string :=
  ⋃ (filter (fun kv => String.prefix "digest-" kv.1 = true) (map_to_list store)).*2.

Definition images : list string :=
  ["blinkospace/blinko"; "ghcr.io/blinkospace/blinko"].

(** [flavor: latest=...] of step [Docker meta] (line 220). *)
Definition latest (ctx : GithubContext) : bool :=
  negb (Actions.expr_eq (event_name ctx) "workflow_dispatch")
  || Actions.expr_eq (inputs_set_latest ctx) "true".

(** [DOCKER_METADATA_OUTPUT_JSON.tags] of step [Docker meta]
    (lines 210-222). *)
Definition tags (ctx : GithubContext) (v : string) : list string :=
  Registry.metadata_tags images v (latest ctx).

(** [printf 'blinkospace/blinko@sha256:%s ' *] in [/tmp/digests]. *)
Definition sources (dir : gset string) : list string :=
  (fun d => "blinkospace/blinko@sha256:" +:+ d) <$> Sh.glob_star dir.

(** Step [Create manifest list and push] (lines 224-231).  The tags
    travel as a list: jq joins them, each behind [-t], with spaces, sed
    edits the line, and the shell splits it at the spaces again. *)
Definition create_manifest_list (tag_list : list string) (dir : gset string)
    : Sh.prog (gmap string (list string)) unit :=
  Registry.imagetools_create tag_list (sources dir) ;;
  Registry.imagetools_create
    (Sh.sed_g "blinkospace/blinko" "ghcr.io/blinkospace/blinko" 0 <$> tag_list)
    (sources dir).

(** The job, which [needs: build]: what it leaves in the registries and
    how it ends.  Its last step, [Inspect image], only reads the
    registries and is left out. *)
Definition merge (ctx : GithubContext) (build : Actions.conclusion)
    (store : gmap string (gset string)) (reg : gmap string (list string))
    : gmap string (list string) * Actions.conclusion :=
  if Actions.starts [build] then
    match env_version (get_version ctx) with
    | Some v =>
        match create_manifest_list (tags ctx v) (download_digests store) reg with
        | Sh.Done (_, reg') => (reg', Actions.Success)
        | Sh.Abort _ => (reg, Actions.Failure)
        end
    | None => (reg, Actions.Failure)
    end
  else (reg, Actions.Skipped).

(** The artifact store and the leg states the matrix leaves; [built]
    gives, per declared platform, the digest its leg built. *)
Definition build (built : string → option string)
    : gmap string (gset string) * list Actions.leg_state :=
  build_legs ((fun p => (p, built p)) <$> platforms) ∅.

(** Jobs [build] and [merge] of one run. *)
Definition publish_image (ctx : GithubContext) (built : string → option string)
    (reg : gmap string (list string))
    : gmap string (list string) * Actions.conclusion :=
  merge ctx (Actions.matrix_conclusion (build built).2) (build built).1 reg.

(** *** The job graph *)

Inductive job : Type := UpdateVersion | Build | Merge | TriggerAppRelease.

(** The release version a job works with, from the trigger context and
    the outputs of the jobs it needs; no job of this workflow declares
    or reads outputs. *)
Definition version_seen (j : job) (ctx : GithubContext)
    (outs : gmap (string * string) string) : option string :=
  match j with
  | UpdateVersion | Build | Merge => env_version (get_version ctx)
  | TriggerAppRelease => env_version (trigger_get_version ctx)
  end.

(** [concurrency:] (lines 25-27). *)
Definition concurrency : option Actions.concurrency :=
  Some {| Actions.group := fun ctx => workflow ctx +:+ "-" +:+ ref ctx;
          Actions.cancel_in_progress := true |}.

End ImageRelease.

(** ** The wording of the specification *)

(** Each source of the precedence list of the version resolver is present
    only under the trigger variant that carries it. *)
Definition manual_input (ctx : GithubContext) : string :=
  if Sh.same (event_name ctx) "workflow_dispatch" then inputs_tag ctx else "".

Definition upstream_version (ctx : GithubContext) : string :=
  if Sh.same (event_name ctx) "repository_dispatch" then payload_version ctx else "".

Definition upstream_tag (ctx : GithubContext) : string :=
  if Sh.same (event_name ctx) "repository_dispatch" then payload_tag ctx else "".

Definition pushed_tag (ctx : GithubContext) : string :=
  if Sh.same (event_name ctx) "workflow_dispatch" then ""
  else if Sh.same (event_name ctx) "repository_dispatch" then ""
  else Sh.strip_v (ref_name ctx).

Definition resolver_precedence (ctx : GithubContext) : string :=
  first_nonempty
    [manual_input ctx; upstream_version ctx; upstream_tag ctx; pushed_tag ctx]
    "1.0.0".

(** The two sources of the image workflow: the manual version input, then
    the name of the git ref without a leading v. *)
Definition image_manual_input (ctx : GithubContext) : string :=
  if Sh.same (event_name ctx) "workflow_dispatch" then inputs_version ctx else "".

Definition image_precedence (ctx : GithubContext) : string :=
  first_nonempty [image_manual_input ctx] (Sh.strip_v (ref_name ctx)).

(** Whether a character occurs in a string, and the text before its
    first occurrence (the whole string when there is none). *)
Fixpoint occurs (a : ascii) (s : string) : bool :=
  match s with
  | "" => false
  | String c r => Ascii.eqb c a || occurs a r
  end.


(** The logical target of an invocation: the workflow and the git ref it
    runs for. *)
Definition target (ctx : GithubContext) : string :=
  workflow ctx +:+ "-" +:+ ref ctx.

(** The file a build leg leaves in its digest directory: the digest
    without its [sha256:] prefix; none when the leg built nothing or the
    name is empty. *)
Definition digest_file (built : option string) : option string :=
  built ≫= fun digest =>
    let name := Sh.strip_prefix "sha256:" digest in
    if Sh.is_empty name then None else Some name.

(** A reference by digest into the repository the legs push to. *)
Definition by_digest_ref (d : string) : string :=
  "blinkospace/blinko@sha256:" +:+ d.

(** The version commits of the two propagators over a tree. *)
Definition app_commit (v : string) (tree : gmap string Json.manifest)
    : Git.commit :=
  {| Git.message := "[ci skip] Update version to " +:+ v; Git.tree := tree |}.

Definition image_commit (v : string) (tree : gmap string Json.manifest)
    : Git.commit :=
  {| Git.message := "chore: Update version to " +:+ v; Git.tree := tree |}.

(** ** Sample inputs *)

Module Sample.

Definition context (wf event name : string) : GithubContext :=
  {| event_name := event; ref := "refs/tags/" +:+ name; ref_name := name;
     workflow := wf;
     inputs_tag := ""; inputs_version := ""; inputs_set_latest := "";
     inputs_trigger_app_release := "";
     payload_version := ""; payload_tag := "" |}.

(** A push of the tag v2.0.0. *)
Definition tag_push : GithubContext := context "App Release" "push" "v2.0.0".

(** An upstream dispatch whose payload carries neither version nor tag. *)
Definition bare_dispatch : GithubContext :=
  {| event_name := "repository_dispatch"; ref := "refs/heads/main";
     ref_name := "main"; workflow := "App Release";
     inputs_tag := ""; inputs_version := ""; inputs_set_latest := "";
     inputs_trigger_app_release := "";
     payload_version := ""; payload_tag := "" |}.

(** A release published under the tag named v. *)
Definition release_v : GithubContext :=
  context "Build and Push Release Docker Image" "release" "v".

(** Releases published under the tags v1.2.3 and v1.2.4. *)
Definition release_123 : GithubContext :=
  context "Build and Push Release Docker Image" "release" "v1.2.3".
Definition release_124 : GithubContext :=
  context "Build and Push Release Docker Image" "release" "v1.2.4".

(** A manual dispatch from the main branch with the version input [v]. *)
Definition manual (v : string) : GithubContext :=
  {| event_name := "workflow_dispatch"; ref := "refs/heads/main";
     ref_name := "main";
     workflow := "Build and Push Release Docker Image";
     inputs_tag := v; inputs_version := v; inputs_set_latest := "true";
     inputs_trigger_app_release := "true";
     payload_version := ""; payload_tag := "" |}.

(** The run of a release event for v1.2.3, while it executes. *)
Definition running_123 : Actions.run :=
  {| Actions.trigger := release_123; Actions.state := Actions.Active |}.

Definition amd64_digest : string :=
  "1f0e9a6c4b2d8e7a3c5b9d1f6a4e2c8b7d3f5a9e1c6b4d2f8a7e3c5b9d1f6a4e".
Definition arm64_digest : string :=
  "0b7c3e9f5a1d6b2e8c4f7a3d9b5e1c6f2a8d4b7e3c9f5a1d6b2e8c4f7a3d9b5e".


Definition built_amd64_only (platform : string) : option string :=
  if Sh.same platform "linux/amd64" then Some ("sha256:" +:+ amd64_digest)
  else None.

(** A repository whose manifests were written by hand at version 0.9.0. *)
Definition authored (v : string) : Json.manifest :=
  {| Json.version := v;
     Json.rest := [("productName", Json.JStr "Blinko");
                   ("bundle", Json.JObj [("active", Json.JLit "true")])];
     Json.shape := Json.Authored true 1 |}.

Definition history : list Git.commit :=
  [{| Git.message := "initial import";
      Git.tree := {[AppRelease.tauri_conf := authored "0.9.0";
                    "package.json" := authored "0.9.0"]} |}].


Definition bundles : gmap string string :=
  {["Blinko_1.2.3_x64-setup.exe" := "windows installer";
    "Blinko_1.2.3_aarch64.dmg" := "macos image"]}.

End Sample.

(** ** Version resolution *)

(** ** Further steps of the two workflows *)

Module AppJobs.


(** What step [set_version] (lines 30-57) leaves behind: its variables,
    the lines for [GITHUB_ENV] and [GITHUB_OUTPUT], and its log. *)
Definition set_version_run (ctx : GithubContext) : option Sh.shell :=
  Sh.final (AppRelease.set_version ctx (Sh.fresh ∅)).

(** The source the step takes [VERSION] from, before the default. *)
Definition picked (ctx : GithubContext) : string :=
  first_nonempty
    [manual_input ctx; upstream_version ctx; upstream_tag ctx; pushed_tag ctx] "".

(** The file the Android build leaves in its output directory. *)
Definition built_apk : string := "app-universal-release.apk".

(** A version that is one word of a file name when the shell expands
    it without quotes: it stands for itself, is not split (no blank),
    is no pattern (no glob character) and names no directory (no
    slash). *)
Definition name_part (v : string) : bool :=
  Sh.plain v && negb (Sh.has Sh.blank v) && negb (Sh.has Sh.glob_char v)
  && negb (Sh.has Sh.slash v).

(** Step [Rename Android App File] (lines 308-317), over the names of
    the files of the output directory, which has no directory in it.
    The target of [mv] is written without quotes: [mv] fails when the
    built file is missing, when a blank in the version splits the
    target into several words, the last of which is no directory, and
    when a slash in the version puts the target into a directory that
    is not there. *)
Definition rename_android_app (v : string) : Sh.prog (gset string) unit :=
  fun dir =>
    if bool_decide (built_apk ∈ dir)
       && negb (Sh.has Sh.blank v) && negb (Sh.has Sh.slash v)
    then Sh.Done (tt, {[AppRelease.apk_name v]} ∪ dir ∖ {[built_apk]})
    else Sh.Abort 1.

(** The jobs that follow [set-version], as the workflow wires them:
    each takes the version from [needs.set-version.outputs.version],
    [outs] being the outputs of the jobs it needs, and none reads the
    trigger context for it.  [update-version] (lines 60-96) runs on the
    ref of the run. *)
Definition update_version (ctx : GithubContext)
    (outs : gmap (string * string) string)
    : list Git.commit → gmap string Json.manifest
      → Sh.outcome (list Git.commit * gmap string Json.manifest) :=
  AppRelease.update_version (ref ctx) (AppRelease.needs_version outs).

(** [tagName] and [releaseName] of step [Build and Publish Desktop App]
    (lines 200-201). *)
Definition publish_desktop (outs : gmap (string * string) string)
    : gmap string string → gmap string Releases.release
      → gmap string Releases.release :=
  AppRelease.publish_desktop (AppRelease.needs_version outs).

(** Steps [Rename Android App File] and [Publish Android App] of
    [publish-android] (lines 308-328): the release, when the rename went
    through; [apk] is the content of the built file. *)
Definition publish_android (outs : gmap (string * string) string)
    (dir : gset string) (apk : string) (st : gmap string Releases.release)
    : Sh.outcome (gmap string Releases.release) :=
  match rename_android_app (AppRelease.needs_version outs) dir with
  | Sh.Done _ =>
      Sh.Done (AppRelease.publish_android (AppRelease.needs_version outs) apk st)
  | Sh.Abort c => Sh.Abort c
  end.

(** [tag_name] of step [Update GitHub Release] (line 362). *)
Definition update_release (outs : gmap (string * string) string)
    : string → gmap string Releases.release → gmap string Releases.release :=
  AppRelease.update_release (AppRelease.needs_version outs).

End AppJobs.

Module ImageJobs.


(** The run of app-release that the dispatch starts: a
    [repository_dispatch] on the default branch whose payload carries
    the version twice, as [tag] and as [version] (lines 262-267). *)
Definition dispatched (branch v : string) : GithubContext :=
  {| event_name := "repository_dispatch";
     ref := "refs/heads/" +:+ branch; ref_name := branch;
     workflow := "App Release";
     inputs_tag := ""; inputs_version := ""; inputs_set_latest := "";
     inputs_trigger_app_release := "";
     payload_version := v; payload_tag := v |}.




(** Step [Get Version] of job [trigger-app-release] in full
    (lines 247-254). *)
Definition trigger_get_version_step (ctx : GithubContext)
    (env : gmap string string) : Sh.sh unit :=
  ImageRelease.trigger_get_version ctx ;;
  Sh.echo ("Trigger app version release: " +:+ default "" (env !! "VERSION")).

(** The script of step [Check Dispatch Result] (lines 272-275). *)
Definition check_dispatch_result (env : gmap string string) : Sh.sh unit :=
  Sh.echo "::warning::Failed to trigger app release workflow. This might be due to permission issues." ;;
  Sh.echo "::warning::Please ensure the GITHUB_TOKEN has 'workflow' permission enabled in repository settings." ;;
  Sh.echo ("::warning::Alternatively, you can manually trigger the app-release workflow with version: "
           +:+ default "" (env !! "VERSION")).

(** [if: steps.dispatch.outcome == 'failure'] (line 271). *)
Definition dispatch_failed (j : Actions.job_state) : bool :=
  bool_decide (Actions.outcomes j !! "dispatch" = Some Actions.StepFailure).

Definition always (j : Actions.job_state) : bool := true.

(** The three steps of the job (lines 246-275), from its start;
    [delivered] tells whether the dispatch action got its event
    through.  The dispatch step has [continue-on-error: true]
    (line 268). *)
Definition trigger_steps (ctx : GithubContext) (delivered : bool)
    : Actions.job_state :=
  Actions.run_step "check" false dispatch_failed check_dispatch_result
    (Actions.uses_step "dispatch" true always
       (if delivered then Actions.StepSuccess else Actions.StepFailure)
       (Actions.run_step "get_version" false always
          (trigger_get_version_step ctx) Actions.job_start)).

(** A line of the log that is the workflow command [::warning::], which
    the runner turns into an annotation. *)
Definition is_warning (line : string) : bool := String.prefix "::warning::" line.

Record dispatch_result := {
  job_conclusion : Actions.conclusion;
  annotations : list string;
  started : option GithubContext   (* the app-release run it started *)
}.

(** Job [trigger-app-release] (lines 238-275), which needs
    [update-version] and has the [if:] of line 242; [branch] is the
    default branch.  The payload of the dispatch holds [env.VERSION] as
    the dispatch step finds it (lines 262-267). *)
Definition trigger_app_release (ctx : GithubContext)
    (update_version : Actions.conclusion) (delivered : bool) (branch : string)
    : dispatch_result :=
  if Actions.starts [update_version] && ImageRelease.triggers_app_release ctx then
    let j := trigger_steps ctx delivered in
    {| job_conclusion := Actions.job_conclusion j;
       annotations := List.filter is_warning (Actions.output j);
       started :=
         if bool_decide (Actions.outcomes j !! "dispatch" = Some Actions.StepSuccess)
         then Some (dispatched branch (default "" (Actions.env j !! "VERSION")))
         else None |}
  else
    {| job_conclusion := Actions.Skipped; annotations := []; started := None |}.

End ImageJobs.

(** Whether no occurrence of [pat] starts anywhere in [s]. *)
Fixpoint free_of (pat s : string) : bool :=
  match s with
  | "" => true
  | String c r => negb (String.prefix pat s) && free_of pat r
  end.

Module Inputs.


(** A release record with one desktop bundle. *)
Definition published : Releases.release :=
  {| Releases.name := "Blinko 1.2.3"; Releases.body := AppRelease.placeholder;
     Releases.draft := false; Releases.prerelease := false;
     Releases.assets := Sample.bundles |}.

(** A history whose manifests already say 1.2.3, written by hand. *)
Definition history_123 : list Git.commit :=
  [{| Git.message := "bump";
      Git.tree := {[AppRelease.tauri_conf := Sample.authored "1.2.3";
                    "package.json" := Sample.authored "1.2.3"]} |}].

(** A history without manifests. *)
Definition bare_history : list Git.commit :=
  [{| Git.message := "readme only"; Git.tree := ∅ |}].

(** The digest artifacts of a build in which both legs succeeded. *)
Definition both_artifacts : gmap string (gset string) :=
  <["digest-linux-arm64" := {[Sample.arm64_digest]}]>
    (<["digest-linux-amd64" := {[Sample.amd64_digest]}]> ∅).

End Inputs.

(** Unfolding of the shell monad in a goal. *)
Ltac run_script :=
  cbv beta iota delta
    [mbind mret prog_bind prog_ret Sh.bind Sh.ret Sh.fail Sh.and_list
     Sh.echo Sh.assign Sh.var Sh.export_env Sh.set_output Sh.fresh
     Sh.vars Sh.github_env Sh.github_output Sh.stdout].

Section Resolver.

Lemma is_empty_true (s : string) : Sh.is_empty s = true ↔ s = "".
Proof. unfold Sh.is_empty. apply String.eqb_eq. Qed.

Lemma is_empty_false (s : string) : Sh.is_empty s = false ↔ s ≠ "".
Proof. unfold Sh.is_empty. apply String.eqb_neq. Qed.

Lemma first_nonempty_nonempty (l : list string) (d : string) :
  d ≠ "" → first_nonempty l d ≠ "".
Proof.
  intros Hd. induction l as [|x l IH]; simpl; [done|].
  destruct (Sh.is_empty x) eqn:E; [done|]. by apply is_empty_false.
Qed.

Lemma set_version_output_precedence (ctx : GithubContext) :
  AppRelease.set_version_output ctx = Some (resolver_precedence ctx).
Proof.
  unfold AppRelease.set_version_output, AppRelease.set_version,
    resolver_precedence, manual_input, upstream_version, upstream_tag,
    pushed_tag.
  destruct (Sh.same (event_name ctx) "workflow_dispatch") eqn:Ewd;
    [|destruct (Sh.same (event_name ctx) "repository_dispatch") eqn:Erd;
      [destruct (Sh.same (payload_version ctx) "") eqn:Epv|]].
  - apply String.eqb_eq in Ewd. rewrite Ewd.
    destruct (inputs_tag ctx) as [|c s]; vm_compute; reflexivity.
  - apply String.eqb_eq in Erd, Epv. rewrite Erd, Epv.
    destruct (payload_tag ctx) as [|c s]; vm_compute; reflexivity.
  - apply String.eqb_eq in Erd. rewrite Erd.
    destruct (payload_version ctx) as [|c s]; [discriminate|].
    vm_compute; reflexivity.
  - run_script. rewrite !lookup_insert_eq. simpl.
    destruct (Sh.is_empty (Sh.strip_v (ref_name ctx))) eqn:E; simpl;
      by rewrite !lookup_insert_eq.
Qed.

Lemma resolver_precedence_nonempty (ctx : GithubContext) :
  resolver_precedence ctx ≠ "".
Proof. by apply first_nonempty_nonempty. Qed.

Lemma get_version_precedence (ctx : GithubContext) :
  ImageRelease.env_version (ImageRelease.get_version ctx)
  = Some (image_precedence ctx).
Proof.
  unfold ImageRelease.env_version, ImageRelease.get_version,
    image_precedence, image_manual_input, first_nonempty, Sh.is_empty, Sh.same.
  destruct (String.eqb (event_name ctx) "workflow_dispatch"); simpl;
    [destruct (String.eqb (inputs_version ctx) ""); simpl|];
    run_script; by rewrite lookup_insert_eq.
Qed.

End Resolver.

(** C1 (amended).  For every trigger context whose values stand for
    themselves in the script they are pasted into (no character the
    shell reads as syntax, no line break), the version resolver of the
    app-release pipeline (step [set_version]) runs to its end and outputs
    a non-empty version chosen by the precedence manual-dispatch input,
    upstream-dispatch version field, upstream-dispatch tag field, pushed
    git tag without a leading v; when all four are absent or empty it
    outputs exactly 1.0.0.  The resolver of the image pipeline (step
    [Get Version]) takes, for such a context, the manual version input
    when it is present and the name of the git ref without a leading v
    otherwise. *)
Theorem version_resolver_precedence (ctx : GithubContext) :
  (AppRelease.plain_context ctx = true →
   AppRelease.set_version_output ctx = Some (resolver_precedence ctx)
   ∧ resolver_precedence ctx ≠ ""
   ∧ (manual_input ctx = "" → upstream_version ctx = "" →
      upstream_tag ctx = "" → pushed_tag ctx = "" →
      AppRelease.set_version_output ctx = Some "1.0.0"))
  ∧ (ImageRelease.plain_context ctx = true →
     ImageRelease.env_version (ImageRelease.get_version ctx)
     = Some (image_precedence ctx)).
Proof.
  split.
  - intros _. split; [apply set_version_output_precedence|].
    split; [apply resolver_precedence_nonempty|].
    intros H1 H2 H3 H4. rewrite set_version_output_precedence.
    unfold resolver_precedence. rewrite H1, H2, H3, H4. reflexivity.
  - intros _. apply get_version_precedence.
Qed.

(** The scenarios of the specification: the push of tag v2.0.0 resolves
    to 2.0.0, a manual dispatch with input 3.1.0-beta to 3.1.0-beta, and
    an upstream dispatch without version and tag to 1.0.0. *)
Lemma version_resolver_precedence_witness :
  AppRelease.set_version_output Sample.tag_push = Some "2.0.0"
  ∧ AppRelease.set_version_output (Sample.manual "3.1.0-beta") = Some "3.1.0-beta"
  ∧ AppRelease.set_version_output Sample.bare_dispatch = Some "1.0.0".
Proof.
  split; [exact (proj1 (proj1 (version_resolver_precedence Sample.tag_push)
                         eq_refl))|].
  split; [exact (proj1 (proj1 (version_resolver_precedence
                                 (Sample.manual "3.1.0-beta")) eq_refl))|].
  apply (proj1 (version_resolver_precedence Sample.bare_dispatch) eq_refl);
    reflexivity.
Defined.

(** C1, as stated, fails on the resolver of the image pipeline: for a
    release published under the tag named v it yields the empty
    version. *)
Lemma version_resolver_image_empty :
  ImageRelease.env_version (ImageRelease.get_version Sample.release_v) = Some ""
  ∧ ¬ (∀ ctx, ∃ v, ImageRelease.env_version (ImageRelease.get_version ctx) = Some v
                   ∧ v ≠ "").
Proof.
  split; [reflexivity|].
  intros H. destruct (H Sample.release_v) as (v & Hv & Hne).
  vm_compute in Hv. congruence.
Qed.

(** ** The Windows normalization *)

Section Windows.

Lemma append_cons (c : ascii) (s t : string) :
  String c s +:+ t = String c (s +:+ t).
Proof. reflexivity. Qed.

Lemma append_nil (t : string) : "" +:+ t = t.
Proof. reflexivity. Qed.

Lemma to_line_end_plain (q : string) :
  occurs "010" q = false → AppRelease.to_line_end q = Some "".
Proof.
  induction q as [|c q IH]; simpl; [done|].
  unfold AppRelease.is_newline. intros [Hc Hq]%orb_false_iff.
  rewrite Hc. auto.
Qed.

Lemma suffix_to_line_end_plain (q : string) :
  q ≠ "" → occurs "010" q = false →
  AppRelease.suffix_to_line_end q = Some "".
Proof.
  destruct q as [|c q]; [done|]. simpl. intros _ [Hc Hq]%orb_false_iff.
  unfold AppRelease.is_newline. rewrite Hc. by apply to_line_end_plain.
Qed.


Lemma strip_prerelease_no_hyphen (v : string) :
  occurs "-" v = false → AppRelease.strip_prerelease v = None.
Proof.
  induction v as [|c v IH]; simpl; [done|].
  intros [Hc Hv]%orb_false_iff. unfold AppRelease.is_hyphen.
  by rewrite Hc, (IH Hv).
Qed.




Context (v : string) (m : Json.manifest).
Context (checkout store : gmap string Json.manifest).
Hypothesis artifact : store !! "tauri-config" = Some (Json.jq_set_version v m).




End Windows.




(** ** Version propagation and the commit guard *)

Section Propagation.

Lemma jq_set_version_idempotent (v : string) (m : Json.manifest) :
  Json.jq_set_version v (Json.jq_set_version v m) = Json.jq_set_version v m.
Proof. reflexivity. Qed.

(** A tree that an insertion leaves as it is already holds the value. *)
Lemma insert_fixed {A} (t : gmap string A) (k : string) (x : A) :
  <[k := x]> t = t → t !! k = Some x.
Proof. intros <-. apply lookup_insert_eq. Qed.

Lemma cons_neq {A} (x : A) (l : list A) : x :: l ≠ l.
Proof. intros H. apply (f_equal length) in H. simpl in H. lia. Qed.

(** The two steps of [update-version] on a fresh checkout whose
    manifest is [m]: nothing is committed when jq leaves the file as it
    is; otherwise one commit is made, which a branch takes and which on
    a detached HEAD makes [git push] fail. *)
Lemma app_propagate (ref v : string) (remote : list Git.commit)
    (m : Json.manifest) :
  Git.tip remote !! AppRelease.tauri_conf = Some m →
  let tree := <[AppRelease.tauri_conf := Json.jq_set_version v m]> (Git.tip remote) in
  (AppRelease.update_tauri_config v ;; AppRelease.commit_and_push v)
    (Git.checkout ref remote)
  = if bool_decide (tree = Git.tip remote) then
      Sh.Done (tt, {| Git.head := ref; Git.worktree := tree; Git.index := tree;
                      Git.log := remote; Git.origin := remote |})
    else if Git.is_branch ref then
      Sh.Done (tt, {| Git.head := ref; Git.worktree := tree; Git.index := tree;
                      Git.log := app_commit v tree :: remote;
                      Git.origin := app_commit v tree :: remote |})
    else Sh.Abort 128.
Proof.
  intros Hm. cbv zeta.
  unfold AppRelease.update_tauri_config, AppRelease.commit_and_push,
    Git.edit, Git.read, Git.add, Git.diff_staged_quiet, Git.commit_m,
    Git.push, Git.pushed, Git.checkout.
  run_script. simpl. rewrite Hm. simpl.
  repeat (rewrite lookup_insert_eq; simpl).
  destruct (bool_decide (_ = Git.tip remote)) eqn:E; simpl; [done|].
  rewrite E. cbn [Git.head Git.worktree Git.index Git.log Git.origin].
  by destruct (Git.is_branch ref).
Qed.

Lemma app_propagate_missing (ref v : string) (remote : list Git.commit) :
  Git.tip remote !! AppRelease.tauri_conf = None →
  ∃ c, (AppRelease.update_tauri_config v ;; AppRelease.commit_and_push v)
         (Git.checkout ref remote) = Sh.Abort c.
Proof.
  intros Hm.
  unfold AppRelease.update_tauri_config, Git.edit, Git.read, Git.checkout.
  run_script. simpl. rewrite Hm. simpl. rewrite Hm. eauto.
Qed.

(** What the job [update-version] of app-release returns. *)
Lemma app_update_version_done (ref v : string)
    (remote remote1 : list Git.commit)
    (store store1 : gmap string Json.manifest) :
  AppRelease.update_version ref v remote store = Sh.Done (remote1, store1) →
  ∃ m, Git.tip remote !! AppRelease.tauri_conf = Some m
       ∧ store1 = <["tauri-config" := Json.jq_set_version v m]> store
       ∧ remote1 =
           let tree := <[AppRelease.tauri_conf := Json.jq_set_version v m]>
                         (Git.tip remote) in
           if bool_decide (tree = Git.tip remote) then remote
           else app_commit v tree :: remote.
Proof.
  unfold AppRelease.update_version.
  destruct (Git.tip remote !! AppRelease.tauri_conf) as [m|] eqn:Hm.
  - rewrite (app_propagate ref v remote m Hm). cbv zeta.
    destruct (bool_decide (_ = Git.tip remote)) eqn:E;
      [apply bool_decide_eq_true in E
      |apply bool_decide_eq_false in E; destruct (Git.is_branch ref)];
      cbn [Git.worktree Git.origin].
    + rewrite lookup_insert_eq. intros [= <- <-]. exists m.
      by rewrite bool_decide_eq_true_2.
    + rewrite lookup_insert_eq. intros [= <- <-]. exists m.
      by rewrite bool_decide_eq_false_2.
    + intros [=].
  - destruct (app_propagate_missing ref v remote Hm) as [c ->]. discriminate.
Qed.

(** On a branch the job goes through whenever the manifest is there. *)
Lemma app_update_version_branch (ref v : string) (remote : list Git.commit)
    (store : gmap string Json.manifest) (m : Json.manifest) :
  Git.is_branch ref = true →
  Git.tip remote !! AppRelease.tauri_conf = Some m →
  AppRelease.update_version ref v remote store
  = Sh.Done
      (let tree := <[AppRelease.tauri_conf := Json.jq_set_version v m]>
                     (Git.tip remote) in
       if bool_decide (tree = Git.tip remote) then remote
       else app_commit v tree :: remote,
       <["tauri-config" := Json.jq_set_version v m]> store).
Proof.
  intros Hb Hm. unfold AppRelease.update_version.
  rewrite (app_propagate ref v remote m Hm), Hb. cbv zeta.
  destruct (bool_decide (_ = Git.tip remote)) eqn:E;
    [apply bool_decide_eq_true in E; rewrite ?bool_decide_eq_true_2 by done
    |apply bool_decide_eq_false in E; rewrite ?bool_decide_eq_false_2 by done];
    cbn [Git.worktree Git.origin]; by rewrite lookup_insert_eq.
Qed.

Lemma app_update_version_tip (ref v : string)
    (remote remote1 : list Git.commit)
    (store store1 : gmap string Json.manifest) :
  AppRelease.update_version ref v remote store = Sh.Done (remote1, store1) →
  Json.version <$> Git.tip remote1 !! AppRelease.tauri_conf = Some v
  ∧ store1 !! "tauri-config" = Git.tip remote1 !! AppRelease.tauri_conf.
Proof.
  intros Hrun.
  destruct (app_update_version_done _ _ _ _ _ _ Hrun) as (m & Hm & -> & Hr).
  simpl in Hr.
  set (tree := <[AppRelease.tauri_conf := Json.jq_set_version v m]> (Git.tip remote)) in *.
  assert (Htip : Git.tip remote1 = tree).
  { rewrite Hr. destruct (bool_decide (tree = Git.tip remote)) eqn:E; [|done].
    by apply bool_decide_eq_true in E. }
  rewrite Htip. unfold tree. by rewrite !lookup_insert_eq.
Qed.

Lemma app_second_run (ref v : string) (remote remote1 : list Git.commit)
    (store store1 : gmap string Json.manifest) :
  AppRelease.update_version ref v remote store = Sh.Done (remote1, store1) →
  (AppRelease.update_tauri_config v ;; AppRelease.commit_and_push v)
    (Git.checkout ref remote1) = Sh.Done (tt, Git.checkout ref remote1)
  ∧ ∀ store', ∃ store2,
      AppRelease.update_version ref v remote1 store' = Sh.Done (remote1, store2).
Proof.
  intros Hrun.
  destruct (app_update_version_done _ _ _ _ _ _ Hrun) as (m & Hm & -> & Hr).
  simpl in Hr.
  set (tree := <[AppRelease.tauri_conf := Json.jq_set_version v m]> (Git.tip remote)) in *.
  assert (Htip : Git.tip remote1 = tree).
  { rewrite Hr. destruct (bool_decide (tree = Git.tip remote)) eqn:E; [|done].
    by apply bool_decide_eq_true in E. }
  assert (Hm1 : Git.tip remote1 !! AppRelease.tauri_conf
                = Some (Json.jq_set_version v m)).
  { rewrite Htip. apply lookup_insert_eq. }
  assert (Hsame : <[AppRelease.tauri_conf
                    := Json.jq_set_version v (Json.jq_set_version v m)]>
                    (Git.tip remote1) = Git.tip remote1).
  { rewrite jq_set_version_idempotent. by apply insert_id. }
  assert (Hsteps : (AppRelease.update_tauri_config v ;; AppRelease.commit_and_push v)
                     (Git.checkout ref remote1)
                   = Sh.Done (tt, Git.checkout ref remote1)).
  { rewrite (app_propagate ref v remote1 _ Hm1). cbv zeta.
    rewrite !Hsame, bool_decide_eq_true_2 by done. reflexivity. }
  split; [exact Hsteps|].
  intros store'. unfold AppRelease.update_version. rewrite Hsteps. simpl.
  rewrite Hm1. eauto.
Qed.

Lemma image_propagate (ref v : string) (remote : list Git.commit)
    (m : Json.manifest) :
  Git.tip remote !! "package.json" = Some m →
  let tree := <["package.json" := Json.jq_set_version v m]> (Git.tip remote) in
  ImageRelease.update_package_json ref v (Git.checkout ref remote)
  = if Sh.same (Json.version m) v then Sh.Done (tt, Git.checkout ref remote)
    else if Git.is_branch ref then
      Sh.Done (tt, {| Git.head := ref; Git.worktree := tree; Git.index := tree;
                      Git.log := image_commit v tree :: remote;
                      Git.origin := image_commit v tree :: remote |})
    else Sh.Abort 1.
Proof.
  intros Hm tree.
  unfold ImageRelease.update_package_json, Git.edit, Git.read, Git.add,
    Git.commit_m, Git.pull_rebase, Git.push_head, Git.pushed, Git.checkout,
    Json.jq_raw_version.
  run_script. simpl. rewrite Hm. simpl.
  destruct (Sh.same (Json.version m) v) eqn:E; simpl; [done|].
  rewrite Hm. simpl. rewrite lookup_insert_eq. simpl.
  assert (Hidx : <["package.json" := Json.jq_set_version v m]> (Git.tip remote)
                 = tree) by reflexivity.
  rewrite !Hidx.
  rewrite bool_decide_eq_false_2.
  2:{ intros Heq. apply insert_fixed in Heq. rewrite Hm in Heq.
      injection Heq as Heq. apply (f_equal Json.version) in Heq. simpl in Heq.
      apply String.eqb_neq in E. congruence. }
  simpl. rewrite (bool_decide_eq_false_2 _ (cons_neq _ _)), orb_false_r.
  by destruct (Git.is_branch ref).
Qed.

(** What the job [update-version] of the image workflow returns. *)
Lemma image_update_version_done (ctx : GithubContext)
    (remote remote1 : list Git.commit) :
  ImageRelease.update_version ctx remote = Sh.Done remote1 →
  ∃ m, Git.tip remote !! "package.json" = Some m
       ∧ remote1 =
           if Sh.same (Json.version m) (image_precedence ctx) then remote
           else image_commit (image_precedence ctx)
                  (<["package.json" := Json.jq_set_version (image_precedence ctx) m]>
                     (Git.tip remote)) :: remote.
Proof.
  unfold ImageRelease.update_version. rewrite get_version_precedence.
  destruct (Git.tip remote !! "package.json") as [m|] eqn:Hm.
  - rewrite (image_propagate _ _ remote m Hm). cbv zeta.
    destruct (Sh.same (Json.version m) (image_precedence ctx)) eqn:E;
      [|destruct (Git.is_branch (ref ctx))];
      cbn [Git.origin Git.checkout].
    + intros [= <-]. exists m. by rewrite ?E.
    + intros [= <-]. exists m. by rewrite ?E.
    + intros [=].
  - unfold ImageRelease.update_package_json, Git.read, Git.checkout.
    run_script. simpl. by rewrite Hm.
Qed.

Lemma image_update_version_tip (ctx : GithubContext)
    (remote remote1 : list Git.commit) :
  ImageRelease.update_version ctx remote = Sh.Done remote1 →
  Json.version <$> Git.tip remote1 !! "package.json" = Some (image_precedence ctx).
Proof.
  intros Hrun.
  destruct (image_update_version_done _ _ _ Hrun) as (m & Hm & ->).
  destruct (Sh.same (Json.version m) (image_precedence ctx)) eqn:E.
  - apply String.eqb_eq in E. by rewrite Hm, <- E.
  - simpl. by rewrite lookup_insert_eq.
Qed.

Lemma image_second_run (ctx : GithubContext) (remote remote1 : list Git.commit) :
  ImageRelease.update_version ctx remote = Sh.Done remote1 →
  ImageRelease.update_package_json (ref ctx) (image_precedence ctx)
    (Git.checkout (ref ctx) remote1)
  = Sh.Done (tt, Git.checkout (ref ctx) remote1)
  ∧ ImageRelease.update_version ctx remote1 = Sh.Done remote1.
Proof.
  intros Hrun.
  destruct (image_update_version_done ctx remote remote1 Hrun) as (m & Hm & Hr).
  set (v := image_precedence ctx) in *.
  assert (Hsteps : ∃ m1, Git.tip remote1 !! "package.json" = Some m1
                         ∧ Sh.same (Json.version m1) v = true).
  { destruct (Sh.same (Json.version m) v) eqn:E; subst remote1.
    - by exists m.
    - exists (Json.jq_set_version v m). split; [apply lookup_insert_eq|].
      unfold Sh.same. simpl. apply String.eqb_refl. }
  destruct Hsteps as (m1 & Hm1 & Hsame).
  assert (Hstep : ImageRelease.update_package_json (ref ctx) v
                    (Git.checkout (ref ctx) remote1)
                  = Sh.Done (tt, Git.checkout (ref ctx) remote1)).
  { by rewrite (image_propagate _ v remote1 m1 Hm1), Hsame. }
  split; [exact Hstep|].
  unfold ImageRelease.update_version. rewrite get_version_precedence.
  fold v. by rewrite Hstep.
Qed.

End Propagation.

(** C2 (amended).  A second run of the version propagator with the
    version the first run committed makes no commit.  The two pipelines
    guard the commit differently.  In the app-release pipeline the file
    is rewritten and staged, the staged content is compared with the
    committed one, and commit and push are skipped when they are equal.
    In the image pipeline the version field of the committed file is
    compared with the version before anything is rewritten, and rewrite,
    stage, commit and push are skipped when they are equal.  In both, the
    steps of the second run leave the clone exactly as it was checked
    out (nothing staged, no commit, nothing pushed) and the job returns
    the remote history as the first run left it.  The version holds no
    character the shell or jq reads as syntax. *)
Theorem version_propagator_idempotent :
  (∀ ref v remote remote1 store store1,
     Sh.plain v = true →
     AppRelease.update_version ref v remote store = Sh.Done (remote1, store1) →
     (AppRelease.update_tauri_config v ;; AppRelease.commit_and_push v)
       (Git.checkout ref remote1) = Sh.Done (tt, Git.checkout ref remote1)
     ∧ ∀ store', ∃ store2,
         AppRelease.update_version ref v remote1 store' = Sh.Done (remote1, store2))
  ∧ (∀ ctx remote remote1,
       ImageRelease.plain_context ctx = true →
       ImageRelease.update_version ctx remote = Sh.Done remote1 →
       ImageRelease.update_package_json (ref ctx) (image_precedence ctx)
         (Git.checkout (ref ctx) remote1)
       = Sh.Done (tt, Git.checkout (ref ctx) remote1)
       ∧ ImageRelease.update_version ctx remote1 = Sh.Done remote1).
Proof.
  split.
  - intros ref v remote remote1 store store1 _. apply app_second_run.
  - intros ctx remote remote1 _. apply image_second_run.
Qed.

(** Runs on the branch main, from a history whose manifests say 0.9.0:
    the first run for 1.2.3 adds one commit and the second run adds
    none, in both pipelines. *)
Lemma version_propagator_idempotent_witness :
  ∃ remote1 store1 store2 image1,
    AppRelease.update_version "refs/heads/main" "1.2.3" Sample.history ∅
    = Sh.Done (remote1, store1)
    ∧ length remote1 = 2
    ∧ AppRelease.update_version "refs/heads/main" "1.2.3" remote1 ∅
      = Sh.Done (remote1, store2)
    ∧ ImageRelease.update_version (Sample.manual "1.2.3") Sample.history
      = Sh.Done image1
    ∧ length image1 = 2
    ∧ ImageRelease.update_version (Sample.manual "1.2.3") image1 = Sh.Done image1.
Proof.
  assert (Happ : ∃ remote1 store1,
             AppRelease.update_version "refs/heads/main" "1.2.3" Sample.history ∅
             = Sh.Done (remote1, store1) ∧ length remote1 = 2).
  { eexists _, _. split; [vm_compute; reflexivity|reflexivity]. }
  assert (Himg : ∃ image1,
             ImageRelease.update_version (Sample.manual "1.2.3") Sample.history
             = Sh.Done image1 ∧ length image1 = 2).
  { eexists. split; [vm_compute; reflexivity|reflexivity]. }
  destruct Happ as (remote1 & store1 & Hrun & Hlen).
  destruct Himg as (image1 & Hirun & Hilen).
  destruct (proj2 (proj1 version_propagator_idempotent "refs/heads/main" "1.2.3"
                     Sample.history remote1 ∅ store1 eq_refl Hrun) ∅)
    as [store2 Hagain].
  exists remote1, store1, store2, image1.
  repeat split; try done.
  exact (proj2 (proj2 version_propagator_idempotent (Sample.manual "1.2.3")
                  Sample.history image1 eq_refl Hirun)).
Defined.

(** C2, as stated, fails on its mechanism and, read without the first
    run, on its conclusion.  The history holds both manifests at version
    1.2.3, laid out by hand.  The image pipeline does not compare the
    rewritten content with the committed content: jq would change the
    file, and yet nothing is rewritten or committed, because the version
    fields are equal.  The app-release pipeline, run on the branch with
    the version that is already committed, makes a commit, because the
    rewritten file has another layout. *)
Lemma propagator_guards_differ :
  (∃ m, Git.tip Inputs.history_123 !! "package.json" = Some m
        ∧ Json.version m = "1.2.3"
        ∧ Json.jq_set_version "1.2.3" m ≠ m
        ∧ ImageRelease.update_version (Sample.manual "1.2.3") Inputs.history_123
          = Sh.Done Inputs.history_123)
  ∧ (∃ m remote1 store1,
        Git.tip Inputs.history_123 !! AppRelease.tauri_conf = Some m
        ∧ Json.version m = "1.2.3"
        ∧ AppRelease.update_version "refs/heads/main" "1.2.3" Inputs.history_123 ∅
          = Sh.Done (remote1, store1)
        ∧ length remote1 = S (length Inputs.history_123)).
Proof.
  split.
  - exists (Sample.authored "1.2.3"). split; [reflexivity|].
    split; [reflexivity|]. split; [discriminate|]. vm_compute. reflexivity.
  - exists (Sample.authored "1.2.3"). eexists _, _. split; [reflexivity|].
    split; [reflexivity|]. split; [vm_compute; reflexivity|reflexivity].
Qed.

(** ** The manifest the build jobs use *)




(** ** Build fan-out *)

Section Matrix.

Lemma matrix_step_keeps_uncancelled (legs legs' : list Actions.leg_state)
    (e : Actions.leg_event) :
  Forall (fun st => st ≠ Actions.Canceled) legs →
  Actions.matrix_step false legs e = Some legs' →
  Forall (fun st => st ≠ Actions.Canceled) legs'.
Proof.
  intros Hall. destruct e as [i|i [|]]; simpl;
    destruct (legs !! i) as [[| | | |]|]; try discriminate;
    intros [= <-]; by apply Forall_insert.
Qed.

Lemma matrix_run_keeps_uncancelled (es : list Actions.leg_event)
    (legs legs' : list Actions.leg_state) :
  Forall (fun st => st ≠ Actions.Canceled) legs →
  Actions.matrix_run false legs es = Some legs' →
  Forall (fun st => st ≠ Actions.Canceled) legs'.
Proof.
  revert legs. induction es as [|e es IH]; simpl; intros legs Hall.
  - by intros [= <-].
  - destruct (Actions.matrix_step false legs e) as [legs1|] eqn:E; [|done].
    apply IH. by apply (matrix_step_keeps_uncancelled legs legs1 e).
Qed.

Lemma failure_leaves_siblings (legs legs' : list Actions.leg_state) (i j : nat) :
  Actions.matrix_step false legs (Actions.Finish i false) = Some legs' →
  j ≠ i → legs' !! j = legs !! j.
Proof.
  simpl. destruct (legs !! i) as [[| | | |]|]; try discriminate.
  intros [= <-] Hne. by apply list_lookup_insert_ne.
Qed.

Lemma matrix_conclusion_failed (legs : list Actions.leg_state) :
  Actions.Failed ∈ legs → Actions.matrix_conclusion legs = Actions.Failure.
Proof.
  intros Hin. unfold Actions.matrix_conclusion.
  assert (H1 : forallb (fun st => bool_decide (st = Actions.Succeeded)) legs = false).
  { apply not_true_is_false. intros H. rewrite forallb_forall in H.
    apply list_elem_of_In in Hin. specialize (H _ Hin). by vm_compute in H. }
  assert (H2 : existsb (fun st => bool_decide (st = Actions.Failed)) legs = true).
  { apply existsb_exists. exists Actions.Failed. split; [|done].
    by apply list_elem_of_In. }
  by rewrite H1, H2.
Qed.

Lemma after_not_started (needs : list Actions.conclusion)
    (own : Actions.conclusion) :
  (∃ c, c ∈ needs ∧ c ≠ Actions.Success) → Actions.after needs own = Actions.Skipped.
Proof.
  intros (c & Hin & Hc). unfold Actions.after, Actions.starts.
  destruct (forallb _ needs) eqn:E; [|done].
  rewrite forallb_forall in E. apply list_elem_of_In in Hin.
  specialize (E _ Hin). by apply bool_decide_eq_true in E.
Qed.

Lemma after_failure_not_success (needs : list Actions.conclusion) :
  Actions.after needs Actions.Failure ≠ Actions.Success.
Proof. unfold Actions.after. by destruct (Actions.starts needs). Qed.

End Matrix.

(** C4 (amended).  In the desktop build matrix, which sets
    [fail-fast: false], the failure of one platform's leg never cancels a
    sibling: no leg of any run of the matrix is ever cancelled and a
    failing leg leaves the state of every other leg as it was.  The
    failure shows at the stages whose join barrier includes the matrix:
    [generate-changelog] and [update-release] are skipped, while
    [publish-android], which does not need it, is not affected. *)
Theorem desktop_matrix_best_effort :
  (∀ es legs,
     Actions.matrix_run (Actions.cancels_siblings AppRelease.desktop_strategy)
       (Actions.queued AppRelease.desktop_strategy) es = Some legs →
     Forall (fun st => st ≠ Actions.Canceled) legs)
  ∧ (∀ legs legs' i j,
       Actions.matrix_step (Actions.cancels_siblings AppRelease.desktop_strategy)
         legs (Actions.Finish i false) = Some legs' →
       j ≠ i → legs' !! j = legs !! j)
  ∧ (∀ own legs,
       Actions.Failed ∈ legs →
       AppRelease.publish_desktop_result (AppRelease.conclude own legs)
         ≠ Actions.Success
       ∧ AppRelease.generate_changelog_result (AppRelease.conclude own legs)
         = Actions.Skipped
       ∧ AppRelease.update_release_result (AppRelease.conclude own legs)
         = Actions.Skipped)
  ∧ (∀ own legs legs',
       AppRelease.publish_android_result (AppRelease.conclude own legs)
       = AppRelease.publish_android_result (AppRelease.conclude own legs')).
Proof.
  split; [|split; [|split; [|done]]].
  - intros es legs. apply matrix_run_keeps_uncancelled.
    repeat constructor; discriminate.
  - intros legs legs' i j. apply failure_leaves_siblings.
  - intros own legs Hfail. simpl.
    rewrite (matrix_conclusion_failed legs Hfail).
    set (pd := Actions.after _ Actions.Failure).
    assert (Hpd : pd ≠ Actions.Success) by apply after_failure_not_success.
    split; [done|]. split.
    + apply after_not_started. exists pd. split; [|done].
      apply list_elem_of_In. simpl. tauto.
    + apply after_not_started. exists Actions.Skipped. split; [|done].
      rewrite after_not_started; [apply list_elem_of_In; simpl; tauto|].
      exists pd. split; [|done]. apply list_elem_of_In. simpl. tauto.
Qed.

(** The Windows leg fails while the three others run: none of them is
    cancelled, and the changelog stage is skipped. *)
Lemma desktop_matrix_best_effort_witness :
  Actions.matrix_run (Actions.cancels_siblings AppRelease.desktop_strategy)
    (Actions.queued AppRelease.desktop_strategy)
    [Actions.Start 0; Actions.Start 1; Actions.Start 2; Actions.Start 3;
     Actions.Finish 3 false]
  = Some [Actions.Running; Actions.Running; Actions.Running; Actions.Failed]
  ∧ Forall (fun st => st ≠ Actions.Canceled)
      [Actions.Running; Actions.Running; Actions.Running; Actions.Failed]
  ∧ AppRelease.generate_changelog_result
      (AppRelease.conclude (fun _ => Actions.Success)
         [Actions.Succeeded; Actions.Succeeded; Actions.Succeeded; Actions.Failed])
    = Actions.Skipped.
Proof.
  split; [reflexivity|]. split.
  - apply (proj1 desktop_matrix_best_effort
             [Actions.Start 0; Actions.Start 1; Actions.Start 2; Actions.Start 3;
              Actions.Finish 3 false]).
    reflexivity.
  - apply (proj1 (proj2 (proj2 desktop_matrix_best_effort))).
    apply list_elem_of_In. simpl. tauto.
Defined.

(** C4, as stated, fails on the container-image matrix, which does not
    set [fail-fast]: when the amd64 leg fails while the arm64 leg runs,
    the arm64 leg is cancelled. *)
Lemma image_matrix_cancels_sibling :
  Actions.fail_fast ImageRelease.build_strategy = None
  ∧ Actions.matrix_run (Actions.cancels_siblings ImageRelease.build_strategy)
      (Actions.queued ImageRelease.build_strategy)
      [Actions.Start 0; Actions.Start 1; Actions.Finish 0 false]
    = Some [Actions.Failed; Actions.Canceled].
Proof. split; reflexivity. Qed.

(** ** Concurrency groups *)

Section Scheduler.

Context (c : Actions.concurrency).
Hypothesis cancels : Actions.cancel_in_progress c = true.

Lemma executing_app (key : string) (runs : list Actions.run) (r : Actions.run) :
  Actions.executing (Actions.group c) key (runs ++ [r])
  = Actions.executing (Actions.group c) key runs
    + (if Actions.counted (Actions.group c) key r then 1 else 0).
Proof.
  unfold Actions.executing. rewrite List.filter_app, length_app. simpl.
  by destruct (Actions.counted (Actions.group c) key r).
Qed.

Lemma executing_supersede_same (key : string) (runs : list Actions.run) :
  Actions.executing (Actions.group c) key
    (Actions.supersede c key
       (fun r => Actions.is_active r || Actions.is_pending r) runs) = 0.
Proof.
  unfold Actions.executing, Actions.supersede, Actions.counted.
  induction runs as [|r runs IH]; [done|].
  rewrite fmap_cons. simpl.
  unfold Actions.in_group.
  destruct (String.eqb (Actions.group c (Actions.trigger r)) key) eqn:Eg; simpl.
  - destruct r as [t [| | |]]; simpl in *; try rewrite Eg; simpl; exact IH.
  - rewrite Eg, andb_false_r. exact IH.
Qed.

Lemma executing_supersede_other (key key' : string) (which : Actions.run → bool)
    (runs : list Actions.run) :
  key' ≠ key →
  Actions.executing (Actions.group c) key' (Actions.supersede c key which runs)
  = Actions.executing (Actions.group c) key' runs.
Proof.
  intros Hne. unfold Actions.executing, Actions.supersede, Actions.counted.
  induction runs as [|r runs IH]; [done|].
  rewrite fmap_cons. simpl. unfold Actions.in_group.
  destruct (String.eqb (Actions.group c (Actions.trigger r)) key) eqn:Eg; simpl.
  - apply String.eqb_eq in Eg.
    assert (Ek : String.eqb (Actions.group c (Actions.trigger r)) key' = false)
      by (apply String.eqb_neq; congruence).
    destruct (which r); simpl; rewrite Ek, !andb_false_r; exact IH.
  - destruct (Actions.is_active r && _); simpl; [f_equal|]; exact IH.
Qed.

Lemma executing_insert_inactive (key : string) (runs : list Actions.run)
    (i : nat) (r : Actions.run) :
  Actions.is_active r = false →
  (Actions.executing (Actions.group c) key (<[i := r]> runs)
   ≤ Actions.executing (Actions.group c) key runs)%nat.
Proof.
  intros Hr. unfold Actions.executing, Actions.counted.
  revert i. induction runs as [|r0 runs IH]; intros [|i]; simpl; try lia.
  - rewrite Hr. simpl. destruct (Actions.is_active r0 && _); simpl; lia.
  - specialize (IH i). destruct (Actions.is_active r0 && _); simpl; lia.
Qed.

Lemma promote_without_pending (key : string) (runs : list Actions.run) :
  Forall (fun r => Actions.state r ≠ Actions.Pending) runs →
  Actions.promote c key runs = runs.
Proof.
  induction 1 as [|r runs Hr _ IH]; simpl; [done|].
  unfold Actions.is_pending. rewrite bool_decide_eq_false_2 by done.
  by rewrite andb_false_r, IH.
Qed.

Lemma step_keeps_no_pending (runs : list Actions.run) (e : Actions.sched_event) :
  Forall (fun r => Actions.state r ≠ Actions.Pending) runs →
  Forall (fun r => Actions.state r ≠ Actions.Pending)
    (Actions.sched_step (Some c) runs e).
Proof.
  intros Hnp. destruct e as [ctx|i]; simpl.
  - rewrite cancels. apply Forall_app. split; [|by repeat constructor].
    unfold Actions.supersede. apply Forall_fmap.
    eapply Forall_impl; [exact Hnp|]. intros r Hr. simpl.
    by destruct (Actions.in_group c _ r && _).
  - destruct (runs !! i) as [r|]; [|done].
    destruct (Actions.is_active r); [|done].
    rewrite promote_without_pending; by apply Forall_insert.
Qed.

Lemma step_keeps_exclusive (runs : list Actions.run) (e : Actions.sched_event) :
  Forall (fun r => Actions.state r ≠ Actions.Pending) runs →
  (∀ key, (Actions.executing (Actions.group c) key runs ≤ 1)%nat) →
  ∀ key, (Actions.executing (Actions.group c) key
            (Actions.sched_step (Some c) runs e) ≤ 1)%nat.
Proof.
  intros Hnp Hex key. destruct e as [ctx|i]; simpl.
  - rewrite cancels, executing_app.
    destruct (decide (key = Actions.group c ctx)) as [->|Hne].
    + rewrite executing_supersede_same. destruct (Actions.counted _ _ _); lia.
    + rewrite executing_supersede_other by done.
      assert (E : Actions.counted (Actions.group c) key
                    {| Actions.trigger := ctx; Actions.state := Actions.Active |}
                  = false).
      { unfold Actions.counted. simpl. apply String.eqb_neq. congruence. }
      rewrite E. specialize (Hex key). lia.
  - destruct (runs !! i) as [r|]; [|done].
    destruct (Actions.is_active r); [|done].
    rewrite promote_without_pending by (by apply Forall_insert).
    etrans; [by apply executing_insert_inactive|done].
Qed.

Lemma run_exclusive (es : list Actions.sched_event) :
  Forall (fun r => Actions.state r ≠ Actions.Pending) (Actions.sched_run (Some c) es)
  ∧ ∀ key, (Actions.executing (Actions.group c) key
              (Actions.sched_run (Some c) es) ≤ 1)%nat.
Proof.
  unfold Actions.sched_run.
  induction es as [|e es [IH1 IH2]] using rev_ind.
  - split; [constructor|]. intros key. unfold Actions.executing. simpl. lia.
  - rewrite foldl_app. simpl. split.
    + by apply step_keeps_no_pending.
    + by apply step_keeps_exclusive.
Qed.

Lemma invoke_supersedes (runs : list Actions.run) (ctx : GithubContext)
    (i : nat) (r : Actions.run) :
  runs !! i = Some r → Actions.state r = Actions.Active →
  Actions.group c (Actions.trigger r) = Actions.group c ctx →
  Actions.sched_step (Some c) runs (Actions.Invoke ctx) !! i
  = Some (Actions.set_state Actions.Superseded r).
Proof.
  intros Hi Hact Hgrp. simpl. rewrite cancels.
  rewrite lookup_app_l.
  2:{ unfold Actions.supersede. rewrite length_fmap. by eapply lookup_lt_Some. }
  unfold Actions.supersede. rewrite list_lookup_fmap, Hi. simpl.
  unfold Actions.in_group, Actions.is_active.
  rewrite Hgrp, String.eqb_refl, bool_decide_eq_true_2 by done. done.
Qed.

End Scheduler.

(** C9 (amended).  The container-image pipeline declares one concurrency
    group, keyed by the workflow and the git ref, with
    [cancel-in-progress: true]: a new invocation for a target cancels the
    run still executing for that target, so that at no time two runs of
    the pipeline execute for the same target.  (The app-release pipeline
    declares no concurrency group.) *)
Theorem image_runs_never_overlap :
  ∃ c, ImageRelease.concurrency = Some c
       ∧ Actions.cancel_in_progress c = true
       ∧ (∀ ctx, Actions.group c ctx = target ctx)
       ∧ (∀ es key,
            (Actions.executing target key
               (Actions.sched_run ImageRelease.concurrency es) ≤ 1)%nat)
       ∧ (∀ runs ctx i r,
            runs !! i = Some r → Actions.state r = Actions.Active →
            target (Actions.trigger r) = target ctx →
            Actions.sched_step ImageRelease.concurrency runs (Actions.Invoke ctx) !! i
            = Some (Actions.set_state Actions.Superseded r)).
Proof.
  set (c := {| Actions.group := target; Actions.cancel_in_progress := true |}).
  exists c. split; [reflexivity|]. split; [reflexivity|]. split; [reflexivity|].
  split.
  - intros es key. apply (run_exclusive c eq_refl es).
  - intros runs ctx i r. apply (invoke_supersedes c eq_refl).
Qed.

(** A second release event for the tag v1.2.3 cancels the run of the
    first one. *)
Lemma image_runs_never_overlap_witness :
  Actions.sched_step ImageRelease.concurrency [Sample.running_123]
    (Actions.Invoke Sample.release_123) !! 0
  = Some (Actions.set_state Actions.Superseded Sample.running_123).
Proof.
  destruct image_runs_never_overlap as (c & _ & _ & _ & _ & Hcancel).
  exact (Hcancel [Sample.running_123] Sample.release_123 0 Sample.running_123
           eq_refl eq_refl eq_refl).
Defined.

(** C9, as stated, fails on the app-release pipeline: it declares no
    concurrency group, and two invocations for the same tag execute at
    the same time. *)
Lemma app_release_runs_overlap :
  AppRelease.concurrency = None
  ∧ Actions.executing target (target Sample.tag_push)
      (Actions.sched_run AppRelease.concurrency
         [Actions.Invoke Sample.tag_push; Actions.Invoke Sample.tag_push]) = 2.
Proof. split; reflexivity. Qed.

(** ** Release publication *)

Section Publication.

Context (v apk : string) (bundles : gmap string string).
Hypothesis other_name : bundles !! AppRelease.apk_name v = None.

Lemma assets_commute :
  ({[AppRelease.apk_name v := apk]} : gmap string string) ∪ (bundles ∪ ∅)
  = bundles ∪ {[AppRelease.apk_name v := apk]}.
Proof.
  rewrite (right_id_L ∅ (∪)). apply map_union_comm.
  by apply map_disjoint_singleton_l.
Qed.

Lemma bundle_kept (f content : string) :
  bundles !! f = Some content →
  (bundles ∪ {[AppRelease.apk_name v := apk]} : gmap string string) !! f
  = Some content.
Proof. intros H. by apply lookup_union_Some_l. Qed.

Lemma apk_kept :
  (bundles ∪ {[AppRelease.apk_name v := apk]} : gmap string string)
    !! AppRelease.apk_name v = Some apk.
Proof.
  rewrite lookup_union_r by done. apply lookup_singleton_eq.
Qed.

End Publication.

(** C8.  The desktop and the Android artifacts end up on the release
    record of the resolved version in either order of arrival: the job
    that publishes first creates the record, not as a draft and with the
    placeholder body; the other one adds to it; no artifact of the one
    job is replaced by the other (the desktop bundles are named otherwise
    than the renamed package), and both orders leave the same assets. *)
Theorem release_publisher_order_independent (v apk : string)
    (bundles : gmap string string) (st : gmap string Releases.release) :
  st !! v = None →
  bundles !! AppRelease.apk_name v = None →
  (∃ r, AppRelease.publish_desktop v bundles st !! v = Some r
        ∧ Releases.draft r = false ∧ Releases.body r = AppRelease.placeholder
        ∧ Releases.assets r = bundles)
  ∧ (∃ r, AppRelease.publish_android v apk st !! v = Some r
          ∧ Releases.draft r = false ∧ Releases.body r = AppRelease.placeholder
          ∧ Releases.assets r = {[AppRelease.apk_name v := apk]})
  ∧ (∃ r1 r2,
       AppRelease.publish_android v apk (AppRelease.publish_desktop v bundles st) !! v
       = Some r1
       ∧ AppRelease.publish_desktop v bundles (AppRelease.publish_android v apk st) !! v
         = Some r2
       ∧ Releases.assets r1 = Releases.assets r2
       ∧ Releases.draft r1 = false ∧ Releases.draft r2 = false
       ∧ (∀ f content, bundles !! f = Some content →
            Releases.assets r1 !! f = Some content)
       ∧ Releases.assets r1 !! AppRelease.apk_name v = Some apk).
Proof.
  intros Hnew Hname.
  unfold AppRelease.publish_desktop, AppRelease.publish_android,
    Releases.tauri_action, Releases.action_gh_release.
  rewrite Hnew. simpl.
  split; [|split].
  - eexists. rewrite lookup_insert_eq. split; [reflexivity|]. simpl.
    by rewrite (right_id_L ∅ (∪)).
  - eexists. rewrite lookup_insert_eq. by split.
  - rewrite !lookup_insert_eq. simpl. eexists _, _.
    split; [reflexivity|]. split; [reflexivity|]. simpl.
    rewrite (assets_commute v apk bundles Hname).
    split; [done|]. split; [done|]. split; [done|]. split.
    + intros f content. apply bundle_kept.
    + by apply apk_kept.
Qed.

(** The two orders of arrival for the release 1.2.3. *)
Lemma release_publisher_order_independent_witness :
  ∃ r1 r2,
    AppRelease.publish_android "1.2.3" "android package"
      (AppRelease.publish_desktop "1.2.3" Sample.bundles ∅) !! "1.2.3" = Some r1
    ∧ AppRelease.publish_desktop "1.2.3" Sample.bundles
        (AppRelease.publish_android "1.2.3" "android package" ∅) !! "1.2.3" = Some r2
    ∧ Releases.assets r1 = Releases.assets r2
    ∧ Releases.assets r1 !! "Blinko_1.2.3_universal.apk" = Some "android package"
    ∧ Releases.assets r1 !! "Blinko_1.2.3_aarch64.dmg" = Some "macos image".
Proof.
  assert (Hnew : (∅ : gmap string Releases.release) !! "1.2.3" = None)
    by reflexivity.
  assert (Hname : Sample.bundles !! AppRelease.apk_name "1.2.3" = None)
    by (vm_compute; reflexivity).
  destruct (release_publisher_order_independent "1.2.3" "android package"
              Sample.bundles ∅ Hnew Hname)
    as (_ & _ & r1 & r2 & H1 & H2 & Heq & _ & _ & Hb & Ha).
  exists r1, r2. split; [exact H1|]. split; [exact H2|]. split; [exact Heq|].
  split; [exact Ha|]. apply Hb. reflexivity.
Defined.

(** ** Digest collection and manifest merge *)

Section Merge.

Lemma build_leg_spec (platform : string) (built : option string)
    (store : gmap string (gset string)) :
  ImageRelease.build_leg platform built store
  = match digest_file built with
    | Some name =>
        Sh.Done (tt, <["digest-" +:+ ImageRelease.platform_pair platform
                       := {[name]}]> store)
    | None => Sh.Abort 1
    end.
Proof.
  destruct built as [digest|]; [|done].
  unfold ImageRelease.build_leg, ImageRelease.export_digest,
    ImageRelease.upload_digest, digest_file. simpl.
  destruct (Sh.is_empty (Sh.strip_prefix "sha256:" digest)).
  - by rewrite bool_decide_eq_true_2.
  - rewrite bool_decide_eq_false_2; [done|]. apply non_empty_singleton_L.
Qed.

Lemma build_spec (built : string → option string) :
  ImageRelease.build built
  = match digest_file (built "linux/amd64"), digest_file (built "linux/arm64") with
    | Some n1, Some n2 =>
        (<["digest-linux-arm64" := {[n2]}]> (<["digest-linux-amd64" := {[n1]}]> ∅),
         [Actions.Succeeded; Actions.Succeeded])
    | Some n1, None =>
        (<["digest-linux-amd64" := {[n1]}]> ∅, [Actions.Succeeded; Actions.Failed])
    | None, Some n2 =>
        (<["digest-linux-arm64" := {[n2]}]> ∅, [Actions.Failed; Actions.Succeeded])
    | None, None => (∅, [Actions.Failed; Actions.Failed])
    end.
Proof.
  unfold ImageRelease.build.
  change (ImageRelease.platforms) with ["linux/amd64"; "linux/arm64"].
  rewrite !fmap_cons, fmap_nil. simpl. rewrite build_leg_spec.
  destruct (digest_file (built "linux/amd64")) as [n1|];
    rewrite build_leg_spec;
    destruct (digest_file (built "linux/arm64")) as [n2|]; reflexivity.
Qed.

(** When the artifact of a declared platform is missing, the matrix did
    not succeed. *)
Lemma missing_artifact_not_success (built : string → option string)
    (platform : string) :
  platform ∈ ImageRelease.platforms →
  (ImageRelease.build built).1
    !! ("digest-" +:+ ImageRelease.platform_pair platform) = None →
  Actions.matrix_conclusion (ImageRelease.build built).2 = Actions.Failure.
Proof.
  intros Hin. rewrite build_spec.
  destruct (digest_file (built "linux/amd64")) as [n1|],
    (digest_file (built "linux/arm64")) as [n2|]; simpl; try done.
  apply list_elem_of_In in Hin. simpl in Hin.
  destruct Hin as [<-|[<-|[]]]; intros H; exfalso; revert H.
  - change ("digest-" +:+ ImageRelease.platform_pair "linux/amd64")
      with "digest-linux-amd64".
    rewrite lookup_insert_ne by done. by rewrite lookup_insert_eq.
  - change ("digest-" +:+ ImageRelease.platform_pair "linux/arm64")
      with "digest-linux-arm64".
    by rewrite lookup_insert_eq.
Qed.

Lemma merge_skipped (ctx : GithubContext) (store : gmap string (gset string))
    (reg : gmap string (list string)) :
  ImageRelease.merge ctx Actions.Failure store reg = (reg, Actions.Skipped).
Proof. reflexivity. Qed.

Lemma empty_directory_fails (tag_list : list string)
    (reg : gmap string (list string)) :
  ImageRelease.create_manifest_list tag_list ∅ reg = Sh.Abort 1.
Proof. reflexivity. Qed.

End Merge.

(** C5 (amended).  The merge job runs only behind the join barrier
    [needs: build], and a leg of [build] succeeds only after it uploaded
    a digest file: when the digest artifact of any declared platform is
    absent, the merge job is skipped and nothing is published.  Within
    the merge step an empty digest directory makes the command fail; the
    step does not compare the number of digests with the number of
    declared platforms. *)
Theorem merge_requires_every_digest :
  (∀ ctx built reg platform,
     platform ∈ ImageRelease.platforms →
     (ImageRelease.build built).1
       !! ("digest-" +:+ ImageRelease.platform_pair platform) = None →
     ImageRelease.publish_image ctx built reg = (reg, Actions.Skipped))
  ∧ (∀ tag_list reg,
       ImageRelease.create_manifest_list tag_list ∅ reg = Sh.Abort 1).
Proof.
  split.
  - intros ctx built reg platform Hin Hmiss. unfold ImageRelease.publish_image.
    rewrite (missing_artifact_not_success built platform Hin Hmiss).
    apply merge_skipped.
  - apply empty_directory_fails.
Qed.

(** The arm64 leg fails: its artifact is missing and the registries stay
    as they were. *)
Lemma merge_requires_every_digest_witness :
  ImageRelease.publish_image Sample.release_123 Sample.built_amd64_only ∅
  = (∅, Actions.Skipped).
Proof.
  apply (proj1 merge_requires_every_digest Sample.release_123
           Sample.built_amd64_only ∅ "linux/arm64").
  - apply list_elem_of_In. simpl. tauto.
  - vm_compute. reflexivity.
Defined.

(** C5, as stated, fails on the merge step: run on a digest directory
    that holds the digest of one of the two declared platforms, it
    succeeds and publishes a manifest list with that one digest. *)
Lemma merge_step_publishes_partial :
  ∃ reg,
    ImageRelease.create_manifest_list
      (ImageRelease.tags Sample.release_123 "1.2.3") {[Sample.amd64_digest]} ∅
    = Sh.Done (tt, reg)
    ∧ reg !! "blinkospace/blinko:1.2.3" = Some [by_digest_ref Sample.amd64_digest]
    ∧ length [by_digest_ref Sample.amd64_digest] < length ImageRelease.platforms.
Proof.
  eexists. split; [vm_compute; reflexivity|].
  split; [vm_compute; reflexivity|]. simpl. lia.
Qed.

Section Manifest.

Lemma after_prefix_app (p s : string) : Sh.after_prefix p (p +:+ s) = Some s.
Proof.
  induction p as [|a p IH]; [by destruct s|].
  rewrite append_cons. simpl. by rewrite Ascii.eqb_refl.
Qed.

Lemma valid_digest_shape (d : string) :
  Registry.valid_digest d = true → Sh.is_empty d = false ∧ Sh.hidden d = false.
Proof.
  unfold Registry.valid_digest. intros [Hlen Hhex]%andb_true_iff.
  destruct d as [|c d]; [done|]. split; [done|].
  simpl in Hhex. apply andb_true_iff in Hhex as [Hc _].
  destruct c as [[] [] [] [] [] [] [] []]; done.
Qed.


Lemma elem_of_download_digests (x : string) (store : gmap string (gset string)) :
  x ∈ ImageRelease.download_digests store
  ↔ ∃ k files, store !! k = Some files ∧ String.prefix "digest-" k = true
               ∧ x ∈ files.
Proof.
  unfold ImageRelease.download_digests. rewrite elem_of_union_list. split.
  - intros (X & HX & Hx).
    apply list_elem_of_fmap in HX as ([k files] & -> & Hkf).
    apply list_elem_of_filter in Hkf as [Hp Hkf].
    apply elem_of_map_to_list in Hkf. by exists k, files.
  - intros (k & files & Hk & Hp & Hx). exists files. split; [|done].
    apply list_elem_of_fmap. exists (k, files). split; [done|].
    apply list_elem_of_filter. split; [done|]. by apply elem_of_map_to_list.
Qed.

(** The directory the merge job collects from the artifacts of two
    successful legs. *)
Lemma download_both (n1 n2 : string) :
  ImageRelease.download_digests
    (<["digest-linux-arm64" := {[n2]}]> (<["digest-linux-amd64" := {[n1]}]> ∅))
  = {[n1; n2]}.
Proof.
  apply set_eq. intros x. rewrite elem_of_download_digests. split.
  - intros (k & files & Hk & _ & Hx).
    apply lookup_insert_Some in Hk as [[<- <-]|[_ Hk]]; [set_solver|].
    apply lookup_insert_Some in Hk as [[<- <-]|[_ Hk]]; [set_solver|].
    by rewrite lookup_empty in Hk.
  - intros [->%elem_of_singleton| ->%elem_of_singleton]%elem_of_union.
    + exists "digest-linux-amd64", {[n1]}. split; [|split; [done|set_solver]].
      rewrite lookup_insert_ne by done. apply lookup_insert_eq.
    + exists "digest-linux-arm64", {[n2]}. split; [|split; [done|set_solver]].
      apply lookup_insert_eq.
Qed.

(** The glob over a directory of digest files lists exactly its files. *)
Lemma glob_star_digests (dir : gset string) (d : string) :
  d ∈ dir →
  (∀ x, x ∈ dir → Registry.valid_digest x = true) →
  ∀ x, x ∈ Sh.glob_star dir ↔ x ∈ dir.
Proof.
  intros Hd Hvalid x. unfold Sh.glob_star.
  set (listed := merge_sort String.le
                   (filter (fun f => Sh.hidden f = false) (elements dir))).
  assert (Hlisted : ∀ y, y ∈ listed ↔ y ∈ dir).
  { intros y. unfold listed. rewrite merge_sort_Permutation.
    rewrite list_elem_of_filter, elem_of_elements. split; [tauto|].
    intros Hy. split; [|done]. by apply valid_digest_shape, Hvalid. }
  destruct listed as [|y listed'] eqn:E; [|apply Hlisted].
  apply Hlisted in Hd. by apply elem_of_nil in Hd.
Qed.

Lemma by_digest_of_ref (d : string) :
  Registry.by_digest (by_digest_ref d) = Registry.valid_digest d.
Proof.
  change (Registry.by_digest (by_digest_ref d))
    with (match Sh.after_prefix "sha256:" ("sha256:" +:+ d) with
          | Some x => Registry.valid_digest x
          | None => false
          end).
  by rewrite after_prefix_app.
Qed.

Lemma sources_of_digests (dir : gset string) (d : string) :
  d ∈ dir →
  (∀ x, x ∈ dir → Registry.valid_digest x = true) →
  (∀ s, s ∈ ImageRelease.sources dir ↔ ∃ x, s = by_digest_ref x ∧ x ∈ dir)
  ∧ forallb Registry.by_digest (ImageRelease.sources dir) = true.
Proof.
  intros Hd Hvalid.
  assert (Hsrc : ∀ s, s ∈ ImageRelease.sources dir
                      ↔ ∃ x, s = by_digest_ref x ∧ x ∈ dir).
  { intros s. unfold ImageRelease.sources. rewrite list_elem_of_fmap.
    split; intros (x & -> & Hx); exists x; (split; [done|]);
      by apply (glob_star_digests dir d Hd Hvalid). }
  split; [exact Hsrc|].
  apply forallb_forall. intros s Hs%list_elem_of_In.
  apply Hsrc in Hs as (x & -> & Hx). rewrite by_digest_of_ref. by apply Hvalid.
Qed.

(** What a registry holds under a key after a manifest list was pushed
    under a list of tags. *)
Lemma lookup_pushed (tag_list : list string) (manifest : list string)
    (reg : gmap string (list string)) (k : string) :
  foldr (fun t => <[t := manifest]>) reg tag_list !! k
  = if decide (k ∈ tag_list) then Some manifest else reg !! k.
Proof.
  induction tag_list as [|t tag_list IH]; cbn [foldr].
  - destruct (decide (k ∈ [])) as [H|]; [by apply elem_of_nil in H|done].
  - destruct (decide (t = k)) as [->|Hne].
    + rewrite lookup_insert_eq.
      destruct (decide (k ∈ k :: tag_list)) as [|H]; [done|].
      exfalso. apply H, list_elem_of_here.
    + rewrite lookup_insert_ne by done. rewrite IH.
      destruct (decide (k ∈ tag_list)) as [Hin|Hnin];
        destruct (decide (k ∈ t :: tag_list)) as [Hin'|Hnin']; try done.
      * exfalso. by apply Hnin', list_elem_of_further.
      * apply elem_of_cons in Hin' as [?|?]; congruence.
Qed.


Lemma create_manifest_list_done (tag_list : list string) (dir : gset string)
    (reg : gmap string (list string)) :
  forallb Registry.by_digest (ImageRelease.sources dir) = true →
  ImageRelease.create_manifest_list tag_list dir reg
  = Sh.Done (tt,
      foldr (fun t => <[t := ImageRelease.sources dir]>)
        (foldr (fun t => <[t := ImageRelease.sources dir]>) reg tag_list)
        (Sh.sed_g "blinkospace/blinko" "ghcr.io/blinkospace/blinko" 0 <$> tag_list)).
Proof.
  intros Hok. unfold ImageRelease.create_manifest_list, Registry.imagetools_create.
  run_script. by rewrite Hok.
Qed.

(** The tags of the second command of the step for the release 1.2.3:
    sed also rewrites the tags that name the second registry already. *)
Example second_command_tags :
  Sh.sed_g "blinkospace/blinko" "ghcr.io/blinkospace/blinko" 0
    <$> ImageRelease.tags Sample.release_123 "1.2.3"
  = ["ghcr.io/blinkospace/blinko:1.2.3";
     "ghcr.io/blinkospace/blinko:latest";
     "ghcr.io/ghcr.io/blinkospace/blinko:1.2.3";
     "ghcr.io/ghcr.io/blinkospace/blinko:latest"].
Proof. reflexivity. Qed.

Lemma version_tag_listed (ctx : GithubContext) (v img : string) :
  img ∈ ImageRelease.images → img +:+ ":" +:+ v ∈ ImageRelease.tags ctx v.
Proof.
  intros Hin. unfold ImageRelease.tags, Registry.metadata_tags.
  apply list_elem_of_bind. exists img. split; [apply list_elem_of_here|done].
Qed.


End Manifest.



(** * Further properties of the workflows *)

(** ** One version per run *)

Section Versions.

Lemma needs_version_of_run (ctx : GithubContext) :
  AppRelease.needs_version (AppRelease.run_outputs ctx) = resolver_precedence ctx.
Proof.
  unfold AppRelease.needs_version, AppRelease.run_outputs.
  rewrite set_version_output_precedence. by rewrite lookup_singleton_eq.
Qed.

Lemma trigger_get_version_same (ctx : GithubContext) :
  event_name ctx = "workflow_dispatch" →
  ImageRelease.trigger_get_version ctx = ImageRelease.get_version ctx.
Proof.
  unfold ImageRelease.trigger_get_version, ImageRelease.get_version.
  intros ->. reflexivity.
Qed.


Lemma trigger_version_manual (ctx : GithubContext) :
  event_name ctx = "workflow_dispatch" →
  first_nonempty [inputs_version ctx] (Sh.strip_v (ref_name ctx))
  = image_precedence ctx.
Proof.
  intros He. unfold image_precedence, image_manual_input. by rewrite He.
Qed.

(** The steps of [trigger-app-release], run from the start of the job. *)
Lemma trigger_steps_run (ctx : GithubContext) (delivered : bool) :
  Actions.failed (ImageJobs.trigger_steps ctx delivered) = false
  ∧ Actions.env (ImageJobs.trigger_steps ctx delivered) !! "VERSION"
    = Some (first_nonempty [inputs_version ctx] (Sh.strip_v (ref_name ctx)))
  ∧ Actions.outcomes (ImageJobs.trigger_steps ctx delivered) !! "dispatch"
    = Some (if delivered then Actions.StepSuccess else Actions.StepFailure)
  ∧ Actions.output (ImageJobs.trigger_steps ctx delivered)
    = "Trigger app version release: "
      :: (if delivered then []
          else ["::warning::Failed to trigger app release workflow. This might be due to permission issues.";
                "::warning::Please ensure the GITHUB_TOKEN has 'workflow' permission enabled in repository settings.";
                "::warning::Alternatively, you can manually trigger the app-release workflow with version: "
                +:+ first_nonempty [inputs_version ctx] (Sh.strip_v (ref_name ctx))]).
Proof.
  unfold ImageJobs.trigger_steps, ImageJobs.trigger_get_version_step,
    ImageRelease.trigger_get_version, first_nonempty, Sh.is_empty, Sh.same.
  destruct (String.eqb (inputs_version ctx) ""); cbn [negb];
    generalize (inputs_version ctx) (Sh.strip_v (ref_name ctx)); intros a b;
    destruct delivered; vm_compute; repeat split.
Qed.

Lemma trigger_started (ctx ctx' : GithubContext) (update_version : Actions.conclusion)
    (delivered : bool) (branch : string) :
  ImageJobs.started
    (ImageJobs.trigger_app_release ctx update_version delivered branch)
  = Some ctx' →
  delivered = true
  ∧ ctx' = ImageJobs.dispatched branch
             (first_nonempty [inputs_version ctx] (Sh.strip_v (ref_name ctx))).
Proof.
  unfold ImageJobs.trigger_app_release.
  destruct (Actions.starts [update_version]
            && ImageRelease.triggers_app_release ctx); [|done].
  cbn [ImageJobs.started].
  destruct (trigger_steps_run ctx delivered) as (_ & Hv & Hd & _).
  rewrite Hd, Hv. destruct delivered.
  - rewrite bool_decide_eq_true_2 by done. by intros [= <-].
  - by rewrite bool_decide_eq_false_2.
Qed.

Lemma merge_success_tags (ctx : GithubContext) (build : Actions.conclusion)
    (store : gmap string (gset string)) (reg reg' : gmap string (list string))
    (img : string) :
  ImageRelease.merge ctx build store reg = (reg', Actions.Success) →
  img ∈ ImageRelease.images →
  reg' !! (img +:+ ":" +:+ image_precedence ctx)
  = Some (ImageRelease.sources (ImageRelease.download_digests store)).
Proof.
  unfold ImageRelease.merge.
  destruct (Actions.starts [build]); [|done].
  rewrite get_version_precedence.
  destruct (forallb Registry.by_digest
              (ImageRelease.sources (ImageRelease.download_digests store))) eqn:E.
  - rewrite (create_manifest_list_done _ _ _ E).
    set (pushed := foldr _ (foldr _ reg _) _).
    intros [= <-] Himg. unfold pushed.
    rewrite !lookup_pushed.
    destruct (decide (_ ∈ _)) as [_|_]; [done|].
    destruct (decide (_ ∈ _)) as [_|Hn]; [done|].
    destruct Hn. by apply version_tag_listed.
  - unfold ImageRelease.create_manifest_list, Registry.imagetools_create.
    run_script. by rewrite E.
Qed.

(** Job [merge] on the artifacts of both legs. *)
Lemma merge_both_artifacts (ctx : GithubContext) (reg : gmap string (list string)) :
  ImageRelease.merge ctx Actions.Success Inputs.both_artifacts reg
  = (foldr (fun t => <[t := ImageRelease.sources
                              {[Sample.amd64_digest; Sample.arm64_digest]}]>)
       (foldr (fun t => <[t := ImageRelease.sources
                                 {[Sample.amd64_digest; Sample.arm64_digest]}]>) reg
          (ImageRelease.tags ctx (image_precedence ctx)))
       (Sh.sed_g "blinkospace/blinko" "ghcr.io/blinkospace/blinko" 0
          <$> ImageRelease.tags ctx (image_precedence ctx)),
     Actions.Success).
Proof.
  assert (Hvalid : ∀ x, x ∈ ({[Sample.amd64_digest; Sample.arm64_digest]}
                              : gset string) →
                        Registry.valid_digest x = true).
  { intros x [->%elem_of_singleton| ->%elem_of_singleton]%elem_of_union;
      reflexivity. }
  assert (Hd1 : Sample.amd64_digest
                ∈ ({[Sample.amd64_digest; Sample.arm64_digest]} : gset string))
    by (apply elem_of_union_l, elem_of_singleton; reflexivity).
  destruct (sources_of_digests _ _ Hd1 Hvalid) as [_ Hok].
  unfold ImageRelease.merge, Inputs.both_artifacts.
  change (Actions.starts _) with true. cbn iota.
  rewrite get_version_precedence, download_both.
  by rewrite create_manifest_list_done.
Qed.

Lemma not_pushed (tags1 tags2 : list string) (manifest : list string) (k : string) :
  k ∉ tags1 → k ∉ tags2 →
  foldr (fun t => <[t := manifest]>)
    (foldr (fun t => <[t := manifest]>) (∅ : gmap string (list string)) tags1)
    tags2 !! k = None.
Proof.
  intros H1 H2. rewrite !lookup_pushed.
  destruct (decide (k ∈ tags2)); [done|].
  by destruct (decide (k ∈ tags1)).
Qed.

End Versions.

(** C7 (amended).  Within one run the release version has one value.  In
    the app-release pipeline it is computed once, by [set-version]; every
    job that follows takes it from the output of that job and works with
    it: the manifest [update-version] leaves at the tip and uploads
    carries it, and the desktop, Android and final release steps write
    the release of that tag, with the package named after it, and no
    other release.  In the image pipeline no job hands the version on:
    every job derives it again from the trigger context by a script of
    its own, and so arrives at the same value (the dispatch job, whose
    script leaves the test of the event out, on the manual dispatch it is
    restricted to).  The values of the trigger context stand for
    themselves in the scripts they are pasted into. *)
Theorem one_version_per_run (ctx : GithubContext) :
  (AppRelease.plain_context ctx = true →
   AppRelease.set_version_output ctx = Some (resolver_precedence ctx)
   ∧ (∀ remote store remote1 store1,
        AppJobs.update_version ctx (AppRelease.run_outputs ctx) remote store
        = Sh.Done (remote1, store1) →
        Json.version <$> Git.tip remote1 !! AppRelease.tauri_conf
        = Some (resolver_precedence ctx)
        ∧ Json.version <$> store1 !! "tauri-config"
          = Some (resolver_precedence ctx))
   ∧ (∀ bundles st,
        is_Some (AppJobs.publish_desktop (AppRelease.run_outputs ctx) bundles st
                   !! resolver_precedence ctx)
        ∧ ∀ t, t ≠ resolver_precedence ctx →
               AppJobs.publish_desktop (AppRelease.run_outputs ctx) bundles st !! t
               = st !! t)
   ∧ (∀ dir apk st st',
        AppJobs.publish_android (AppRelease.run_outputs ctx) dir apk st
        = Sh.Done st' →
        (∃ r, st' !! resolver_precedence ctx = Some r
              ∧ Releases.assets r !! AppRelease.apk_name (resolver_precedence ctx)
                = Some apk)
        ∧ ∀ t, t ≠ resolver_precedence ctx → st' !! t = st !! t)
   ∧ (∀ changelog st,
        is_Some (AppJobs.update_release (AppRelease.run_outputs ctx) changelog st
                   !! resolver_precedence ctx)
        ∧ ∀ t, t ≠ resolver_precedence ctx →
               AppJobs.update_release (AppRelease.run_outputs ctx) changelog st !! t
               = st !! t))
  ∧ (ImageRelease.plain_context ctx = true →
     (∀ remote remote1,
        ImageRelease.update_version ctx remote = Sh.Done remote1 →
        Json.version <$> Git.tip remote1 !! "package.json"
        = Some (image_precedence ctx))
     ∧ (∀ platform date,
          ImageRelease.env_version (ImageRelease.prepare platform ctx date)
          = Some (image_precedence ctx))
     ∧ (∀ build store reg reg' img,
          ImageRelease.merge ctx build store reg = (reg', Actions.Success) →
          img ∈ ImageRelease.images →
          reg' !! (img +:+ ":" +:+ image_precedence ctx)
          = Some (ImageRelease.sources (ImageRelease.download_digests store)))
     ∧ (∀ update_version delivered branch ctx',
          event_name ctx = "workflow_dispatch" →
          ImageJobs.started
            (ImageJobs.trigger_app_release ctx update_version delivered branch)
          = Some ctx' →
          payload_version ctx' = image_precedence ctx
          ∧ payload_tag ctx' = image_precedence ctx)).
Proof.
  split.
  - intros _. split; [apply set_version_output_precedence|].
    unfold AppJobs.update_version, AppJobs.publish_desktop,
      AppJobs.publish_android, AppJobs.update_release.
    rewrite needs_version_of_run. set (v := resolver_precedence ctx).
    split; [|split; [|split]].
    + intros remote store remote1 store1 Hrun.
      destruct (app_update_version_tip _ _ _ _ _ _ Hrun) as [Htip Hart].
      by rewrite Hart.
    + intros bundles st.
      unfold AppRelease.publish_desktop, Releases.tauri_action. split.
      * rewrite lookup_insert_eq. eauto.
      * intros t Hne. by rewrite lookup_insert_ne.
    + intros dir apk st st'.
      destruct (AppJobs.rename_android_app v dir) as [?|?]; [|done].
      intros [= <-].
      unfold AppRelease.publish_android, Releases.action_gh_release.
      destruct (st !! v) as [r|]; (split; [|intros t Hne; by rewrite lookup_insert_ne]);
        rewrite lookup_insert_eq; eexists; (split; [reflexivity|]); simpl.
      * apply lookup_union_Some_l, lookup_singleton_eq.
      * apply lookup_singleton_eq.
    + intros changelog st.
      unfold AppRelease.update_release, Releases.action_gh_release.
      destruct (st !! v) as [r|]; (split; [|intros t Hne; by rewrite lookup_insert_ne]);
        rewrite lookup_insert_eq; eauto.
  - intros _. split; [|split; [|split]].
    + intros remote remote1. apply image_update_version_tip.
    + intros platform date.
      pose proof (get_version_precedence ctx) as Hv.
      unfold ImageRelease.env_version in *. unfold ImageRelease.prepare.
      unfold ImageRelease.get_version in *.
      destruct (Sh.same (event_name ctx) "workflow_dispatch"
                && negb (Sh.same (inputs_version ctx) ""));
        run_script; simpl in *; injection Hv as Hv;
        rewrite lookup_insert_eq in Hv; simpl in Hv;
        rewrite lookup_insert_ne by done; rewrite lookup_insert_eq; simpl;
        by rewrite Hv.
    + intros build store reg reg' img. apply merge_success_tags.
    + intros update_version delivered branch ctx' He Hstart.
      destruct (trigger_started _ _ _ _ _ Hstart) as [_ ->].
      unfold ImageJobs.dispatched. cbn [payload_version payload_tag].
      by rewrite trigger_version_manual.
Qed.

(** The push of tag v2.0.0: the final release step writes the release
    2.0.0; a manual image run for 1.2.3: the amd64 leg prepares 1.2.3. *)
Lemma one_version_per_run_witness :
  AppRelease.set_version_output Sample.tag_push = Some "2.0.0"
  ∧ is_Some (AppJobs.update_release (AppRelease.run_outputs Sample.tag_push)
               "notes" ∅ !! "2.0.0")
  ∧ ImageRelease.env_version
      (ImageRelease.prepare "linux/amd64" (Sample.manual "1.2.3")
         "2026-01-01T00:00:00Z") = Some "1.2.3".
Proof.
  destruct (one_version_per_run Sample.tag_push) as [Happ _].
  destruct (Happ eq_refl) as (Hset & _ & _ & _ & Hrel).
  destruct (one_version_per_run (Sample.manual "1.2.3")) as [_ Himg].
  destruct (Himg eq_refl) as (_ & Hprep & _).
  split; [exact Hset|]. split; [exact (proj1 (Hrel "notes" ∅))|].
  exact (Hprep "linux/amd64" "2026-01-01T00:00:00Z").
Defined.

(** C7, as stated, fails on the image pipeline.  No job of it declares
    or reads an output: job [merge] gets from the job it needs its
    conclusion and the digest artifacts only, and with the same
    conclusion (success) and the same artifacts (those of both legs) it
    publishes under 1.2.3 for one trigger context and under 1.2.4 for
    another.  It derives the version itself, in step
    [Extract version]. *)
Lemma image_jobs_rederive_version :
  ∃ reg1 reg2,
    ImageRelease.merge Sample.release_123 Actions.Success Inputs.both_artifacts ∅
    = (reg1, Actions.Success)
    ∧ ImageRelease.merge Sample.release_124 Actions.Success Inputs.both_artifacts ∅
      = (reg2, Actions.Success)
    ∧ is_Some (reg1 !! "blinkospace/blinko:1.2.3")
    ∧ reg1 !! "blinkospace/blinko:1.2.4" = None
    ∧ is_Some (reg2 !! "blinkospace/blinko:1.2.4")
    ∧ reg2 !! "blinkospace/blinko:1.2.3" = None.
Proof.
  assert (Himg : "blinkospace/blinko" ∈ ImageRelease.images)
    by apply list_elem_of_here.
  pose proof (merge_both_artifacts Sample.release_123 ∅) as H1.
  pose proof (merge_both_artifacts Sample.release_124 ∅) as H2.
  pose proof (merge_success_tags _ _ _ _ _ _ H1 Himg) as Hs1.
  pose proof (merge_success_tags _ _ _ _ _ _ H2 Himg) as Hs2.
  change ("blinkospace/blinko" +:+ ":" +:+ image_precedence Sample.release_123)
    with "blinkospace/blinko:1.2.3" in Hs1.
  change ("blinkospace/blinko" +:+ ":" +:+ image_precedence Sample.release_124)
    with "blinkospace/blinko:1.2.4" in Hs2.
  eexists _, _. split; [exact H1|]. split; [exact H2|].
  split; [exact (mk_is_Some _ _ Hs1)|].
  split; [|split; [exact (mk_is_Some _ _ Hs2)|]].
  - apply not_pushed; intros Hin; apply list_elem_of_In in Hin;
      vm_compute in Hin;
      repeat (destruct Hin as [Hin|Hin]; [discriminate Hin|]); exact Hin.
  - apply not_pushed; intros Hin; apply list_elem_of_In in Hin;
      vm_compute in Hin;
      repeat (destruct Hin as [Hin|Hin]; [discriminate Hin|]); exact Hin.
Qed.

(** ** What the version step exposes *)

Section Exports.

Lemma resolver_of_picked (ctx : GithubContext) :
  resolver_precedence ctx
  = if Sh.is_empty (AppJobs.picked ctx) then "1.0.0" else AppJobs.picked ctx.
Proof.
  unfold resolver_precedence, AppJobs.picked. simpl.
  destruct (Sh.is_empty (manual_input ctx)) eqn:E1; [|by rewrite E1].
  destruct (Sh.is_empty (upstream_version ctx)) eqn:E2; [|by rewrite E2].
  destruct (Sh.is_empty (upstream_tag ctx)) eqn:E3; [|by rewrite E3].
  destruct (Sh.is_empty (pushed_tag ctx)) eqn:E4; [done|by rewrite E4].
Qed.


End Exports.

(** X1.  For a trigger context whose values stand for themselves in the
    script, step [set_version] runs to its end and exposes one and the
    same value as [VERSION] in [GITHUB_ENV] and as [version] in
    [GITHUB_OUTPUT]; its log is the event line, the warning exactly when
    the source it picked is empty, and the line with the version set. *)
Theorem set_version_exports (ctx : GithubContext) :
  AppRelease.plain_context ctx = true →
  ∃ s, AppJobs.set_version_run ctx = Some s
       ∧ Sh.github_env s !! "VERSION" = Some (resolver_precedence ctx)
       ∧ Sh.github_output s !! "version" = Some (resolver_precedence ctx)
       ∧ Sh.stdout s
         = ["Event name: " +:+ event_name ctx]
           ++ (if Sh.is_empty (AppJobs.picked ctx)
               then ["WARNING: Empty version, using default 1.0.0"] else [])
           ++ ["Set version: " +:+ resolver_precedence ctx].
Proof.
  intros _.
  rewrite resolver_of_picked.
  unfold AppJobs.set_version_run, AppRelease.set_version, AppJobs.picked,
    manual_input, upstream_version, upstream_tag, pushed_tag.
  destruct (Sh.same (event_name ctx) "workflow_dispatch") eqn:Ewd;
    [|destruct (Sh.same (event_name ctx) "repository_dispatch") eqn:Erd;
      [destruct (Sh.same (payload_version ctx) "") eqn:Epv|]].
  - apply String.eqb_eq in Ewd. rewrite Ewd.
    destruct (inputs_tag ctx) as [|c s]; vm_compute; eexists; repeat split.
  - apply String.eqb_eq in Erd, Epv. rewrite Erd, Epv.
    destruct (payload_tag ctx) as [|c s]; vm_compute; eexists; repeat split.
  - apply String.eqb_eq in Erd. rewrite Erd.
    destruct (payload_version ctx) as [|c s]; [discriminate|].
    vm_compute; eexists; repeat split.
  - run_script. rewrite !lookup_insert_eq. simpl.
    destruct (Sh.is_empty (Sh.strip_v (ref_name ctx))) eqn:E; simpl;
      rewrite !lookup_insert_eq; simpl; eexists; (split; [reflexivity|]);
      simpl; rewrite !lookup_insert_eq; rewrite ?E; done.
Qed.

(** The push of tag v2.0.0 and a dispatch without version and tag. *)
Lemma set_version_exports_witness :
  (∃ s, AppJobs.set_version_run Sample.tag_push = Some s
        ∧ Sh.stdout s = ["Event name: push"; "Set version: 2.0.0"])
  ∧ (∃ s, AppJobs.set_version_run Sample.bare_dispatch = Some s
          ∧ Sh.stdout s = ["Event name: repository_dispatch";
                           "WARNING: Empty version, using default 1.0.0";
                           "Set version: 1.0.0"]).
Proof.
  split.
  - destruct (set_version_exports Sample.tag_push eq_refl)
      as (s & Hrun & _ & _ & Hlog).
    exists s. split; [exact Hrun|exact Hlog].
  - destruct (set_version_exports Sample.bare_dispatch eq_refl)
      as (s & Hrun & _ & _ & Hlog).
    exists s. split; [exact Hrun|exact Hlog].
Defined.

(** ** The dispatch of the app release *)



(** X3.  For a trigger context whose values stand for themselves in the
    scripts, the job [trigger-app-release] never concludes with failure:
    its one step that can fail, the dispatch, has [continue-on-error].
    A dispatch that does not go through starts no run, and the step
    [Check Dispatch Result] then prints its three warnings, the last of
    which names the version; a dispatch that goes through prints none. *)
Theorem dispatch_failure_is_not_fatal (ctx : GithubContext)
    (update_version : Actions.conclusion) (delivered : bool) (branch : string) :
  ImageRelease.plain_context ctx = true →
  ImageJobs.job_conclusion
    (ImageJobs.trigger_app_release ctx update_version delivered branch)
  ≠ Actions.Failure
  ∧ (delivered = true →
     ImageJobs.annotations
       (ImageJobs.trigger_app_release ctx update_version delivered branch) = [])
  ∧ (delivered = false →
     ImageJobs.started
       (ImageJobs.trigger_app_release ctx update_version delivered branch) = None
     ∧ (ImageJobs.job_conclusion
          (ImageJobs.trigger_app_release ctx update_version delivered branch)
        = Actions.Success →
        ImageJobs.annotations
          (ImageJobs.trigger_app_release ctx update_version delivered branch)
        = ["::warning::Failed to trigger app release workflow. This might be due to permission issues.";
           "::warning::Please ensure the GITHUB_TOKEN has 'workflow' permission enabled in repository settings.";
           "::warning::Alternatively, you can manually trigger the app-release workflow with version: "
           +:+ first_nonempty [inputs_version ctx] (Sh.strip_v (ref_name ctx))])).
Proof.
  intros _. unfold ImageJobs.trigger_app_release.
  destruct (Actions.starts [update_version]
            && ImageRelease.triggers_app_release ctx);
    [|repeat split; done].
  destruct (trigger_steps_run ctx delivered) as (Hf & _ & Hd & Ho).
  cbn [ImageJobs.job_conclusion ImageJobs.annotations ImageJobs.started].
  unfold Actions.job_conclusion. rewrite Hf, Hd, Ho.
  split; [done|]. split.
  - intros ->. reflexivity.
  - intros ->. split; [by rewrite bool_decide_eq_false_2|]. intros _.
    generalize (first_nonempty [inputs_version ctx] (Sh.strip_v (ref_name ctx))).
    intros v. vm_compute. reflexivity.
Qed.

(** A manual run for 1.2.3 whose dispatch is refused. *)
Lemma dispatch_failure_is_not_fatal_witness :
  ImageJobs.job_conclusion
    (ImageJobs.trigger_app_release (Sample.manual "1.2.3") Actions.Success false "main")
  ≠ Actions.Failure
  ∧ ImageJobs.started
      (ImageJobs.trigger_app_release (Sample.manual "1.2.3") Actions.Success false "main")
    = None.
Proof.
  destruct (dispatch_failure_is_not_fatal (Sample.manual "1.2.3")
              Actions.Success false "main" eq_refl) as (Hok & _ & Hfail).
  split; [exact Hok|]. exact (proj1 (Hfail eq_refl)).
Defined.

(** ** The Windows step, once more *)

Section WindowsStep.

Lemma stripped_has_no_hyphen (v new : string) :
  occurs "010" v = false →
  AppRelease.strip_prerelease v = Some new → occurs "-" new = false.
Proof.
  revert new. induction v as [|c v IH]; intros new; simpl; [done|].
  intros [Hc Hv]%orb_false_iff. unfold AppRelease.is_hyphen.
  destruct (Ascii.eqb c "-") eqn:E.
  - destruct v as [|c' v'].
    + simpl. discriminate.
    + rewrite (suffix_to_line_end_plain (String c' v')) by done.
      by intros [= <-].
  - destruct (AppRelease.strip_prerelease v) as [new'|]; [|discriminate].
    simpl. intros [= <-]. simpl. rewrite E. by apply IH.
Qed.



End WindowsStep.

(** X4.  On a single-line version the Windows step does its work in one
    pass: the version it leaves no longer matches the step's own test,
    so the step applied again changes nothing. *)
Theorem windows_version_settles (v : string) :
  occurs "010" v = false →
  AppRelease.strip_prerelease (AppRelease.windows_version v) = None
  ∧ AppRelease.windows_version (AppRelease.windows_version v)
    = AppRelease.windows_version v.
Proof.
  intros Hnl.
  assert (H : AppRelease.strip_prerelease (AppRelease.windows_version v) = None).
  { unfold AppRelease.windows_version.
    destruct (AppRelease.strip_prerelease v) as [new|] eqn:E; simpl; [|done].
    apply strip_prerelease_no_hyphen. by apply (stripped_has_no_hyphen v). }
  split; [exact H|].
  unfold AppRelease.windows_version at 1. by rewrite H.
Qed.

(** The version 3.1.0-beta-2 becomes 3.1.0 and stays there. *)
Lemma windows_version_settles_witness :
  AppRelease.windows_version "3.1.0-beta-2" = "3.1.0"
  ∧ AppRelease.windows_version (AppRelease.windows_version "3.1.0-beta-2")
    = AppRelease.windows_version "3.1.0-beta-2".
Proof.
  split; [reflexivity|].
  apply (windows_version_settles "3.1.0-beta-2"). reflexivity.
Defined.



(** ** What the propagators leave behind *)



(** X7.  Without the manifest in the checkout both propagators fail:
    [update-version] of app-release at the [cat] of the missing file, so
    that nothing is committed and no artifact is uploaded, and the one of
    the image workflow at its first read of package.json. *)
Theorem propagators_need_manifest :
  (∀ ref v remote store,
     Git.tip remote !! AppRelease.tauri_conf = None →
     ∃ code, AppRelease.update_version ref v remote store = Sh.Abort code)
  ∧ (∀ ctx remote,
       Git.tip remote !! "package.json" = None →
       ∃ code, ImageRelease.update_version ctx remote = Sh.Abort code).
Proof.
  split.
  - intros ref v remote store Hm. unfold AppRelease.update_version.
    destruct (app_propagate_missing ref v remote Hm) as [c ->]. eauto.
  - intros ctx remote Hm. unfold ImageRelease.update_version.
    rewrite get_version_precedence.
    unfold ImageRelease.update_package_json, Git.read, Git.checkout.
    run_script. simpl. rewrite Hm. eauto.
Qed.

(** A repository that holds a readme only. *)
Lemma propagators_need_manifest_witness :
  (∃ code, AppRelease.update_version "refs/heads/main" "1.2.3"
             Inputs.bare_history ∅ = Sh.Abort code)
  ∧ (∃ code, ImageRelease.update_version Sample.release_123 Inputs.bare_history
             = Sh.Abort code).
Proof.
  split.
  - apply (proj1 propagators_need_manifest). reflexivity.
  - apply (proj2 propagators_need_manifest). reflexivity.
Defined.



(** X9.  The two commit guards differ on a manifest that already carries
    the version but was not laid out by jq: app-release, which compares
    the rewritten file with the committed one, commits the new layout
    (and pushes it, when the run is on a branch); the image workflow,
    which compares the version fields, commits nothing.  The version
    and the values of the trigger context stand for themselves in the
    scripts. *)
Theorem guards_differ_on_layout :
  (∀ ref v remote store m,
     Git.is_branch ref = true → Sh.plain v = true →
     Git.tip remote !! AppRelease.tauri_conf = Some m →
     Json.version m = v → Json.shape m ≠ Json.JqIndented →
     ∃ store1,
       AppRelease.update_version ref v remote store
       = Sh.Done (app_commit v
                    (<[AppRelease.tauri_conf := Json.jq_set_version v m]>
                       (Git.tip remote)) :: remote, store1))
  ∧ (∀ ctx remote m,
       ImageRelease.plain_context ctx = true →
       Git.tip remote !! "package.json" = Some m →
       Json.version m = image_precedence ctx →
       ImageRelease.update_version ctx remote = Sh.Done remote).
Proof.
  split.
  - intros ref v remote store m Hb _ Hm Hv Hshape.
    rewrite (app_update_version_branch ref v remote store m Hb Hm). cbv zeta.
    rewrite bool_decide_eq_false_2; [eauto|].
    intros Heq. apply insert_fixed in Heq. rewrite Hm in Heq.
    injection Heq as Heq. apply (f_equal Json.shape) in Heq. by simpl in Heq.
  - intros ctx remote m _ Hm Hv. unfold ImageRelease.update_version.
    rewrite get_version_precedence, (image_propagate _ _ remote m Hm).
    unfold Sh.same. by rewrite Hv, String.eqb_refl.
Qed.

(** Hand-written manifests that already say 1.2.3, in runs on the
    branch main: one commit in app-release, none in the image
    workflow. *)
Lemma guards_differ_on_layout_witness :
  (∃ remote1 store1,
     AppRelease.update_version "refs/heads/main" "1.2.3" Inputs.history_123 ∅
     = Sh.Done (remote1, store1) ∧ length remote1 = 2)
  ∧ ImageRelease.update_version (Sample.manual "1.2.3") Inputs.history_123
    = Sh.Done Inputs.history_123.
Proof.
  split.
  - destruct (proj1 guards_differ_on_layout "refs/heads/main" "1.2.3"
                Inputs.history_123 ∅ (Sample.authored "1.2.3")
                eq_refl eq_refl eq_refl eq_refl)
      as [store1 Hrun]; [discriminate|].
    eexists _, store1. split; [exact Hrun|reflexivity].
  - apply (proj2 guards_differ_on_layout (Sample.manual "1.2.3")
             Inputs.history_123 (Sample.authored "1.2.3")); reflexivity.
Defined.

(** ** The job graph of app-release *)

Section Graph.

Lemma after_success (needs : list Actions.conclusion) (own : Actions.conclusion) :
  Actions.after needs own = Actions.Success →
  own = Actions.Success ∧ Forall (fun c => c = Actions.Success) needs.
Proof.
  unfold Actions.after, Actions.starts.
  destruct (forallb _ needs) eqn:E; [|done]. intros ->. split; [done|].
  apply Forall_forall. intros c Hc%list_elem_of_In.
  rewrite forallb_forall in E. exact (bool_decide_eq_true_1 _ (E c Hc)).
Qed.

Lemma matrix_conclusion_success (legs : list Actions.leg_state) :
  Actions.matrix_conclusion legs = Actions.Success →
  Forall (fun st => st = Actions.Succeeded) legs.
Proof.
  unfold Actions.matrix_conclusion.
  destruct (forallb _ legs) eqn:E.
  - intros _. apply Forall_forall. intros st Hst%list_elem_of_In.
    rewrite forallb_forall in E. exact (bool_decide_eq_true_1 _ (E st Hst)).
  - by destruct (existsb _ legs).
Qed.

End Graph.

(** X10.  [update-release] is the last stage of a join: it succeeds only
    in a run in which every other job succeeded and every leg of the
    desktop matrix succeeded; and when [set-version] does not succeed,
    every other job is skipped. *)
Theorem update_release_joins_all (own : AppRelease.job → Actions.conclusion)
    (legs : list Actions.leg_state) :
  (AppRelease.update_release_result (AppRelease.conclude own legs) = Actions.Success →
   AppRelease.set_version_result (AppRelease.conclude own legs) = Actions.Success
   ∧ AppRelease.update_version_result (AppRelease.conclude own legs) = Actions.Success
   ∧ AppRelease.publish_desktop_result (AppRelease.conclude own legs) = Actions.Success
   ∧ AppRelease.publish_android_result (AppRelease.conclude own legs) = Actions.Success
   ∧ AppRelease.generate_changelog_result (AppRelease.conclude own legs)
     = Actions.Success
   ∧ Forall (fun st => st = Actions.Succeeded) legs)
  ∧ (own AppRelease.SetVersion ≠ Actions.Success →
     AppRelease.update_version_result (AppRelease.conclude own legs) = Actions.Skipped
     ∧ AppRelease.publish_desktop_result (AppRelease.conclude own legs) = Actions.Skipped
     ∧ AppRelease.publish_android_result (AppRelease.conclude own legs) = Actions.Skipped
     ∧ AppRelease.generate_changelog_result (AppRelease.conclude own legs)
       = Actions.Skipped
     ∧ AppRelease.update_release_result (AppRelease.conclude own legs)
       = Actions.Skipped).
Proof.
  split.
  - simpl. intros Hur.
    apply after_success in Hur as [_ Hur].
    apply Forall_cons in Hur as [Hsv Hur]. apply Forall_cons in Hur as [Hgc _].
    rewrite Hgc. split; [done|].
    apply after_success in Hgc as [_ Hgc].
    apply Forall_cons in Hgc as [_ Hgc]. apply Forall_cons in Hgc as [Hpd Hgc].
    apply Forall_cons in Hgc as [Hpa _].
    rewrite Hpd, Hpa.
    apply after_success in Hpd as [Hlegs Hpd].
    apply Forall_cons in Hpd as [_ Hpd]. apply Forall_cons in Hpd as [Huv _].
    rewrite Huv. repeat split; try done.
    by apply matrix_conclusion_success.
  - intros Hsv. simpl.
    assert (Hskip : ∀ rest o, Actions.after (own AppRelease.SetVersion :: rest) o
                              = Actions.Skipped).
    { intros rest o. apply after_not_started.
      exists (own AppRelease.SetVersion). split; [apply list_elem_of_here|done]. }
    by rewrite !Hskip.
Qed.

(** A run in which the Windows leg fails, and one in which every job
    and leg succeeds. *)
Lemma update_release_joins_all_witness :
  AppRelease.update_release_result
    (AppRelease.conclude (fun _ => Actions.Failure) []) = Actions.Skipped
  ∧ Forall (fun st => st = Actions.Succeeded)
      [Actions.Succeeded; Actions.Succeeded; Actions.Succeeded; Actions.Succeeded].
Proof.
  split.
  - apply (proj2 (update_release_joins_all (fun _ => Actions.Failure) [])).
    discriminate.
  - apply (proj1 (update_release_joins_all (fun _ => Actions.Success)
                    [Actions.Succeeded; Actions.Succeeded; Actions.Succeeded;
                     Actions.Succeeded])).
    reflexivity.
Defined.

(** ** The Android package and the final update of the release *)

Section Android.

Lemma length_append (a b : string) :
  String.length (a +:+ b) = (String.length a + String.length b)%nat.
Proof.
  induction a as [|c a IH]; [done|]. rewrite append_cons. simpl. by rewrite IH.
Qed.

Lemma append_inj_r (a b s : string) : a +:+ s = b +:+ s → a = b.
Proof.
  revert b. induction a as [|c a IH]; intros [|d b] H; try done.
  - exfalso. apply (f_equal String.length) in H.
    rewrite append_cons, append_nil in H. simpl in H.
    rewrite length_append in H. lia.
  - exfalso. apply (f_equal String.length) in H.
    rewrite append_cons, append_nil in H. simpl in H.
    rewrite length_append in H. lia.
  - rewrite !append_cons in H. injection H as -> H. f_equal. by apply IH.
Qed.

Lemma apk_name_inj (v w : string) :
  AppRelease.apk_name v = AppRelease.apk_name w → v = w.
Proof.
  unfold AppRelease.apk_name. intros H.
  apply (inj (String.append "Blinko_")) in H. by apply append_inj_r in H.
Qed.

Lemma apk_name_not_built (v : string) : AppRelease.apk_name v ≠ AppJobs.built_apk.
Proof. discriminate. Qed.

End Android.

(** X11.  The version stands for itself in the script.  Step
    [Rename Android App File] fails when the build left no package, and
    also when the version holds a blank or a slash, because the target
    of [mv] is written without quotes.  For a version that is one word
    of a file name, and with the built package there, the directory
    afterwards holds the package under the name that step
    [Publish Android App] uploads, no longer holds the name the build
    gave it, and holds every other file as before.  The name determines
    the version: two versions never share it. *)
Theorem rename_android_app_effect (v : string) (dir : gset string) :
  Sh.plain v = true →
  (AppJobs.built_apk ∉ dir → AppJobs.rename_android_app v dir = Sh.Abort 1)
  ∧ (Sh.has Sh.blank v = true ∨ Sh.has Sh.slash v = true →
     AppJobs.rename_android_app v dir = Sh.Abort 1)
  ∧ (AppJobs.name_part v = true → AppJobs.built_apk ∈ dir →
     ∃ dir', AppJobs.rename_android_app v dir = Sh.Done (tt, dir')
             ∧ AppRelease.apk_name v ∈ dir'
             ∧ (AppJobs.built_apk ∉ dir')
             ∧ (∀ f, f ≠ AppJobs.built_apk → f ≠ AppRelease.apk_name v →
                     (f ∈ dir' ↔ f ∈ dir)))
  ∧ (∀ w, AppRelease.apk_name v = AppRelease.apk_name w → v = w).
Proof.
  intros _. unfold AppJobs.rename_android_app. split; [|split; [|split]].
  - intros Hno. by rewrite bool_decide_eq_false_2.
  - intros [Hb|Hs]; [rewrite Hb|rewrite Hs];
      by rewrite ?andb_false_r.
  - unfold AppJobs.name_part.
    intros [[[_ Hb%negb_true_iff]%andb_true_iff _]%andb_true_iff
            Hs%negb_true_iff]%andb_true_iff Hin.
    rewrite bool_decide_eq_true_2, Hb, Hs by done.
    eexists. split; [reflexivity|]. split; [|split].
    + apply elem_of_union_l, elem_of_singleton. reflexivity.
    + intros [Hname%elem_of_singleton|Hrest%elem_of_difference]%elem_of_union.
      * by apply (apk_name_not_built v).
      * destruct Hrest as [_ Hrest]. apply Hrest, elem_of_singleton. reflexivity.
    + intros f Hbuilt Hname. rewrite elem_of_union, elem_of_difference.
      rewrite !elem_of_singleton. tauto.
  - intros w. apply apk_name_inj.
Qed.

(** The output directory of a build, for the version 1.2.3 and for the
    version 1.0 rc, with a blank. *)
Lemma rename_android_app_effect_witness :
  (∃ dir', AppJobs.rename_android_app "1.2.3" {[AppJobs.built_apk; "output.json"]}
           = Sh.Done (tt, dir')
           ∧ "Blinko_1.2.3_universal.apk" ∈ dir')
  ∧ AppJobs.rename_android_app "1.0 rc" {[AppJobs.built_apk; "output.json"]}
    = Sh.Abort 1.
Proof.
  split.
  - destruct (proj1 (proj2 (proj2 (rename_android_app_effect "1.2.3"
                              {[AppJobs.built_apk; "output.json"]} eq_refl))))
      as (dir' & Hrun & Hin & _).
    + reflexivity.
    + apply elem_of_union_l, elem_of_singleton. reflexivity.
    + exists dir'. split; [exact Hrun|exact Hin].
  - apply (proj1 (proj2 (rename_android_app_effect "1.0 rc"
                           {[AppJobs.built_apk; "output.json"]} eq_refl))).
    left. reflexivity.
Defined.

(** X12.  The final [update-release] puts a non-empty changelog in the
    body of the release of the resolved version and keeps its name and
    every asset attached to it; the releases of other tags are not
    touched. *)
Theorem update_release_keeps_assets (v changelog : string)
    (st : gmap string Releases.release) (r : Releases.release) :
  st !! v = Some r → changelog ≠ "" →
  (∃ r', AppRelease.update_release v changelog st !! v = Some r'
         ∧ Releases.body r' = changelog
         ∧ Releases.name r' = Releases.name r
         ∧ Releases.assets r' = Releases.assets r
         ∧ Releases.draft r' = false)
  ∧ (∀ t, t ≠ v → AppRelease.update_release v changelog st !! t = st !! t).
Proof.
  intros Hr Hlog%is_empty_false.
  unfold AppRelease.update_release, Releases.action_gh_release. rewrite Hr.
  split.
  - eexists. rewrite lookup_insert_eq. split; [reflexivity|]. simpl.
    rewrite Hlog. repeat split; try done. apply (left_id_L ∅ (∪)).
  - intros t Hne. by rewrite lookup_insert_ne.
Qed.

(** The release 1.2.3 with its desktop bundles gets its changelog. *)
Lemma update_release_keeps_assets_witness :
  ∃ r', AppRelease.update_release "1.2.3" "## Changes"
          {["1.2.3" := Inputs.published]} !! "1.2.3" = Some r'
        ∧ Releases.body r' = "## Changes"
        ∧ Releases.assets r' = Sample.bundles.
Proof.
  assert (Hr : ({["1.2.3" := Inputs.published]} : gmap string Releases.release)
               !! "1.2.3" = Some Inputs.published) by reflexivity.
  destruct (proj1 (update_release_keeps_assets "1.2.3" "## Changes" _ _ Hr
                     ltac:(discriminate)))
    as (r' & Hget & Hbody & _ & Hassets & _).
  exists r'. split; [exact Hget|]. split; [exact Hbody|exact Hassets].
Defined.

(** ** Runs of the image pipeline for other targets *)

(** X13.  A new invocation of the image pipeline cancels nothing outside
    its own group: a run for another git ref is left exactly as it was,
    and so is a run that has completed; the new run is added behind the
    runs there were, and starts at once. *)
Theorem invocation_spares_other_runs (runs : list Actions.run)
    (ctx : GithubContext) (i : nat) (r : Actions.run) :
  runs !! i = Some r →
  workflow (Actions.trigger r) = workflow ctx →
  ref (Actions.trigger r) ≠ ref ctx ∨ Actions.state r = Actions.Completed →
  Actions.sched_step ImageRelease.concurrency runs (Actions.Invoke ctx) !! i
  = Some r
  ∧ Actions.sched_step ImageRelease.concurrency runs (Actions.Invoke ctx)
      !! length runs
    = Some {| Actions.trigger := ctx; Actions.state := Actions.Active |}.
Proof.
  intros Hi Hwf Hother. simpl. split.
  - rewrite lookup_app_l.
    2:{ unfold Actions.supersede. rewrite length_fmap. by eapply lookup_lt_Some. }
    unfold Actions.supersede. rewrite list_lookup_fmap, Hi. simpl.
    destruct Hother as [Href|Hdone].
    + unfold Actions.in_group. simpl.
      assert (E : String.eqb (workflow (Actions.trigger r) +:+ "-"
                                +:+ ref (Actions.trigger r))
                    (workflow ctx +:+ "-" +:+ ref ctx) = false).
      { apply String.eqb_neq. rewrite Hwf. intros Heq.
        apply (inj (String.append (workflow ctx))) in Heq.
        by apply (inj (String.append "-")) in Heq. }
      by rewrite E.
    + unfold Actions.is_active, Actions.is_pending. rewrite Hdone. simpl.
      by rewrite andb_false_r.
  - rewrite lookup_app_r.
    2:{ unfold Actions.supersede. by rewrite length_fmap. }
    unfold Actions.supersede. rewrite length_fmap, Nat.sub_diag. reflexivity.
Qed.

(** While the run for v1.2.3 executes, a release is published under
    v1.2.4. *)
Lemma invocation_spares_other_runs_witness :
  Actions.sched_step ImageRelease.concurrency [Sample.running_123]
    (Actions.Invoke Sample.release_124) !! 0
  = Some Sample.running_123
  ∧ Actions.sched_step ImageRelease.concurrency [Sample.running_123]
      (Actions.Invoke Sample.release_124) !! 1
    = Some {| Actions.trigger := Sample.release_124;
              Actions.state := Actions.Active |}.
Proof.
  apply (invocation_spares_other_runs [Sample.running_123] Sample.release_124
           0 Sample.running_123).
  - reflexivity.
  - reflexivity.
  - left. discriminate.
Defined.

(** ** The digest artifacts, from the legs to the merge *)

Section Digests.

Lemma replace_char_absent (a b : ascii) (s : string) :
  a ≠ b → occurs a (Sh.replace_char a b s) = false.
Proof.
  intros Hne. induction s as [|c s IH]; [done|]. simpl.
  rewrite IH, orb_false_r.
  destruct (Ascii.eqb c a) eqn:E.
  - apply Ascii.eqb_neq. congruence.
  - exact E.
Qed.

Lemma replace_char_length (a b : ascii) (s : string) :
  String.length (Sh.replace_char a b s) = String.length s.
Proof. induction s as [|c s IH]; [done|]. simpl. by rewrite IH. Qed.

Lemma replace_char_inj (a b : ascii) (s t : string) :
  occurs b s = false → occurs b t = false →
  Sh.replace_char a b s = Sh.replace_char a b t → s = t.
Proof.
  revert t. induction s as [|c s IH]; intros [|d t]; simpl; try done.
  intros [Hc Hs]%orb_false_iff [Hd Ht]%orb_false_iff [= Hhead Htail].
  f_equal; [|by apply IH].
  apply Ascii.eqb_neq in Hc, Hd.
  destruct (Ascii.eqb c a) eqn:Ec, (Ascii.eqb d a) eqn:Ed;
    try apply Ascii.eqb_eq in Ec; try apply Ascii.eqb_eq in Ed; congruence.
Qed.

Lemma elem_of_platforms (p : string) :
  p ∈ ImageRelease.platforms ↔ p = "linux/amd64" ∨ p = "linux/arm64".
Proof.
  change ImageRelease.platforms with ["linux/amd64"; "linux/arm64"].
  rewrite !elem_of_cons, elem_of_nil. tauto.
Qed.

Lemma build_store_lookup (built : string → option string) (p : string) :
  p ∈ ImageRelease.platforms →
  (ImageRelease.build built).1 !! ("digest-" +:+ ImageRelease.platform_pair p)
  = (fun n => {[n]}) <$> digest_file (built p).
Proof.
  intros [-> | ->]%elem_of_platforms; rewrite build_spec;
    destruct (digest_file (built "linux/amd64")),
             (digest_file (built "linux/arm64")); reflexivity.
Qed.

Lemma build_store_keys (built : string → option string) (k : string)
    (files : gset string) :
  (ImageRelease.build built).1 !! k = Some files →
  ∃ p, p ∈ ImageRelease.platforms
       ∧ k = "digest-" +:+ ImageRelease.platform_pair p.
Proof.
  rewrite build_spec.
  destruct (digest_file (built "linux/amd64")),
           (digest_file (built "linux/arm64")); simpl; intros Hk;
    repeat (apply lookup_insert_Some in Hk as [[<- _]|[_ Hk]];
            [first [by exists "linux/amd64"; split; [apply elem_of_platforms; left|]
                   |by exists "linux/arm64"; split; [apply elem_of_platforms; right|]]
            |]);
    first [done | by rewrite lookup_empty in Hk].
Qed.

Lemma digest_file_Some (built : option string) (n : string) :
  digest_file built = Some n
  ↔ ∃ d, built = Some d ∧ n = Sh.strip_prefix "sha256:" d ∧ n ≠ "".
Proof.
  unfold digest_file. destruct built as [d|]; simpl.
  - destruct (Sh.is_empty (Sh.strip_prefix "sha256:" d)) eqn:E.
    + apply is_empty_true in E. split; [done|].
      intros (d' & [= <-] & -> & Hne). done.
    + apply is_empty_false in E. split.
      * intros [= <-]. by exists d.
      * intros (d' & [= <-] & -> & _). done.
  - split; [done|]. by intros (d & ? & _).
Qed.

End Digests.

(** X14.  The name of a platform's artifact, [PLATFORM_PAIR], holds no
    slash and is as long as the platform's name; two platforms whose
    names hold no hyphen never get the same artifact name. *)
Theorem platform_pair_separates (p q : string) :
  occurs "-" p = false → occurs "-" q = false → p ≠ q →
  ImageRelease.platform_pair p ≠ ImageRelease.platform_pair q
  ∧ occurs "/" (ImageRelease.platform_pair p) = false
  ∧ String.length (ImageRelease.platform_pair p) = String.length p.
Proof.
  intros Hp Hq Hne. unfold ImageRelease.platform_pair. split; [|split].
  - intros Heq. by apply Hne, (replace_char_inj "/" "-").
  - by apply replace_char_absent.
  - apply replace_char_length.
Qed.

(** The two platforms of the build matrix. *)
Lemma platform_pair_separates_witness :
  ImageRelease.platform_pair "linux/amd64" ≠ ImageRelease.platform_pair "linux/arm64"
  ∧ occurs "/" (ImageRelease.platform_pair "linux/amd64") = false
  ∧ String.length (ImageRelease.platform_pair "linux/amd64") = 11.
Proof.
  apply (platform_pair_separates "linux/amd64" "linux/arm64").
  - reflexivity.
  - reflexivity.
  - discriminate.
Defined.

(** X15.  From the legs to the merge: the directory that step
    [Download digests] fills holds exactly the files the legs of the
    declared platforms exported, that is, for each leg that built an
    image, its digest without the prefix [sha256:], when that is not
    empty. *)
Theorem digests_round_trip (built : string → option string) (x : string) :
  x ∈ ImageRelease.download_digests (ImageRelease.build built).1
  ↔ ∃ p d, p ∈ ImageRelease.platforms ∧ built p = Some d
           ∧ x = Sh.strip_prefix "sha256:" d ∧ x ≠ "".
Proof.
  rewrite elem_of_download_digests. split.
  - intros (k & files & Hk & _ & Hx).
    destruct (build_store_keys built k files Hk) as (p & Hp & ->).
    rewrite (build_store_lookup built p Hp) in Hk.
    destruct (digest_file (built p)) as [n|] eqn:En; [|done].
    injection Hk as <-. apply elem_of_singleton in Hx as ->.
    apply digest_file_Some in En as (d & Hd & Hn & Hne).
    by exists p, d.
  - intros (p & d & Hp & Hd & Hx & Hne).
    exists ("digest-" +:+ ImageRelease.platform_pair p), {[x]}.
    split; [|split].
    + rewrite (build_store_lookup built p Hp).
      assert (En : digest_file (built p) = Some x)
        by (apply digest_file_Some; by exists d).
      by rewrite En.
    + by apply elem_of_platforms in Hp as [-> | ->].
    + by apply elem_of_singleton.
Qed.

(** ** The command line of the manifest list *)

Section CommandLine.

Lemma filter_all {A : Type} (P : A → Prop) `{∀ x, Decision (P x)} (l : list A) :
  Forall P l → filter P l = l.
Proof.
  induction 1 as [|x l Hx _ IH]; [done|].
  rewrite filter_cons_True by done. by rewrite IH.
Qed.

Lemma glob_star_visible (dir : gset string) :
  dir ≠ ∅ → (∀ x, x ∈ dir → Sh.hidden x = false) →
  Sh.glob_star dir = merge_sort String.le (elements dir).
Proof.
  intros Hne Hvis. unfold Sh.glob_star.
  rewrite filter_all.
  2:{ apply Forall_forall. intros x Hx. by apply Hvis, elem_of_elements. }
  destruct (merge_sort String.le (elements dir)) as [|f fs] eqn:E; [|done].
  exfalso. apply Hne, leibniz_equiv, elements_empty_inv.
  pose proof (merge_sort_Permutation String.le (elements dir)) as Hperm.
  rewrite E in Hperm. symmetry in Hperm.
  apply Permutation_nil_r in Hperm. by rewrite Hperm.
Qed.

Lemma sed_g_free (pat rep s : string) :
  free_of pat s = true → Sh.sed_g pat rep 0 s = s.
Proof.
  induction s as [|c s IH]; [done|].
  cbn [free_of Sh.sed_g]. intros [Hhere Hrest]%andb_true_iff.
  apply negb_true_iff in Hhere. rewrite Hhere. by rewrite IH.
Qed.

Lemma prefix_append (p t : string) : String.prefix p (p +:+ t) = true.
Proof.
  induction p as [|c p IH]; [by destruct t|].
  rewrite append_cons. cbn [String.prefix]. by destruct (ascii_dec c c).
Qed.

Lemma sed_g_skip (pat rep a t : string) :
  Sh.sed_g pat rep (String.length a) (a +:+ t) = Sh.sed_g pat rep 0 t.
Proof. induction a as [|c a IH]; [done|]. rewrite append_cons. exact IH. Qed.

Lemma sed_g_match (c : ascii) (p rep t : string) :
  Sh.sed_g (String c p) rep 0 (String c p +:+ t)
  = rep +:+ Sh.sed_g (String c p) rep 0 t.
Proof.
  rewrite append_cons. cbn [Sh.sed_g].
  change (String c (p +:+ t)) with (String c p +:+ t).
  rewrite prefix_append. cbn [String.length]. rewrite Nat.sub_1_r. cbn [Nat.pred].
  by rewrite sed_g_skip.
Qed.

Lemma sed_g_pass (c d : ascii) (p rep t : string) :
  c ≠ d →
  Sh.sed_g (String c p) rep 0 (String d t)
  = String d (Sh.sed_g (String c p) rep 0 t).
Proof.
  intros Hne. cbn [Sh.sed_g String.prefix]. by destruct (ascii_dec c d).
Qed.

Lemma sed_hub_tag (t : string) :
  free_of "blinkospace/blinko" t = true →
  Sh.sed_g "blinkospace/blinko" "ghcr.io/blinkospace/blinko" 0
    ("blinkospace/blinko" +:+ ":" +:+ t)
  = "ghcr.io/blinkospace/blinko" +:+ ":" +:+ t.
Proof.
  intros Hfree. rewrite sed_g_match.
  change (":" +:+ t) with (String ":" t).
  rewrite sed_g_pass by discriminate. by rewrite sed_g_free.
Qed.

Lemma sed_ghcr_tag (t : string) :
  free_of "blinkospace/blinko" t = true →
  Sh.sed_g "blinkospace/blinko" "ghcr.io/blinkospace/blinko" 0
    ("ghcr.io/blinkospace/blinko" +:+ ":" +:+ t)
  = "ghcr.io/ghcr.io/blinkospace/blinko" +:+ ":" +:+ t.
Proof.
  intros Hfree.
  change ("ghcr.io/blinkospace/blinko" +:+ ":" +:+ t)
    with (String "g" (String "h" (String "c" (String "r" (String "." (String "i"
          (String "o" (String "/" ("blinkospace/blinko" +:+ ":" +:+ t))))))))).
  rewrite !sed_g_pass by discriminate.
  rewrite (sed_hub_tag t Hfree). reflexivity.
Qed.

End CommandLine.

(** X16.  The second command of step [Create manifest list and push]
    edits every tag of the first with sed, also the tags that already
    name the GitHub registry: for a version in which the name
    [blinkospace/blinko] does not occur, its tags are the tags the
    metadata step would give for the images
    [ghcr.io/blinkospace/blinko] and [ghcr.io/ghcr.io/blinkospace/blinko]. *)
Theorem second_push_tags (ctx : GithubContext) (v : string) :
  free_of "blinkospace/blinko" v = true →
  Sh.sed_g "blinkospace/blinko" "ghcr.io/blinkospace/blinko" 0
    <$> ImageRelease.tags ctx v
  = Registry.metadata_tags
      ["ghcr.io/blinkospace/blinko"; "ghcr.io/ghcr.io/blinkospace/blinko"]
      v (ImageRelease.latest ctx).
Proof.
  intros Hfree. unfold ImageRelease.tags, Registry.metadata_tags.
  change ImageRelease.images
    with ["blinkospace/blinko"; "ghcr.io/blinkospace/blinko"].
  destruct (ImageRelease.latest ctx); cbn [mbind list_bind app fmap list_fmap];
    rewrite !(sed_hub_tag v Hfree), !(sed_ghcr_tag v Hfree);
    try rewrite (sed_hub_tag "latest" eq_refl), (sed_ghcr_tag "latest" eq_refl);
    reflexivity.
Qed.

(** The tags of the second command for the release 1.2.3. *)
Lemma second_push_tags_witness :
  Sh.sed_g "blinkospace/blinko" "ghcr.io/blinkospace/blinko" 0
    <$> ImageRelease.tags Sample.release_123 "1.2.3"
  = Registry.metadata_tags
      ["ghcr.io/blinkospace/blinko"; "ghcr.io/ghcr.io/blinkospace/blinko"]
      "1.2.3" (ImageRelease.latest Sample.release_123).
Proof. apply (second_push_tags Sample.release_123 "1.2.3"). reflexivity. Defined.

(** X17.  On a digest directory with entries, none of them hidden, the
    sources of the manifest list are one reference into
    [blinkospace/blinko] per entry, without repetition: as many sources
    as the directory has entries. *)
Theorem sources_one_per_digest (dir : gset string) :
  dir ≠ ∅ → (∀ x, x ∈ dir → Sh.hidden x = false) →
  NoDup (ImageRelease.sources dir)
  ∧ length (ImageRelease.sources dir) = size dir
  ∧ ∀ s, s ∈ ImageRelease.sources dir
         ↔ ∃ d, d ∈ dir ∧ s = "blinkospace/blinko@sha256:" +:+ d.
Proof.
  intros Hne Hvis. unfold ImageRelease.sources.
  rewrite (glob_star_visible dir Hne Hvis).
  pose proof (merge_sort_Permutation String.le (elements dir)) as Hperm.
  split; [|split].
  - apply (NoDup_fmap_2 _). rewrite Hperm. apply NoDup_elements.
  - rewrite length_fmap, Hperm. reflexivity.
  - intros s. rewrite list_elem_of_fmap. split.
    + intros (d & -> & Hd). exists d. split; [|done].
      rewrite Hperm in Hd. by apply elem_of_elements.
    + intros (d & Hd & ->). exists d. split; [done|].
      rewrite Hperm. by apply elem_of_elements.
Qed.

(** The directory with the digests of both platforms. *)
Lemma sources_one_per_digest_witness :
  NoDup (ImageRelease.sources {[Sample.amd64_digest; Sample.arm64_digest]})
  ∧ length (ImageRelease.sources {[Sample.amd64_digest; Sample.arm64_digest]}) = 2.
Proof.
  destruct (sources_one_per_digest {[Sample.amd64_digest; Sample.arm64_digest]})
    as (Hnodup & Hlen & _).
  - intros Hempty.
    assert (Hin : Sample.amd64_digest
                  ∈ ({[Sample.amd64_digest; Sample.arm64_digest]} : gset string))
      by (apply elem_of_union_l, elem_of_singleton; reflexivity).
    rewrite Hempty in Hin. by apply elem_of_empty in Hin.
  - intros x [->%elem_of_singleton| ->%elem_of_singleton]%elem_of_union;
      reflexivity.
  - split; [exact Hnodup|]. rewrite Hlen. vm_compute. reflexivity.
Defined.



(** ** What step [Get Version] prints *)

